(** * structflag: binding a configuration record to command-line flags

    A shallow embedding of [structflag.go]: the reflective record walker
    ([Builder.walk], [Builder.walkField], [Builder.Build]) and the
    environment overlay of [FlagSet.Parse].

    The walker is a program that issues registration calls to the flag
    engine (pflag) and may allocate nil pointers of the record.  It is
    embedded as a function returning the calls it issues, in order, and the
    updated record, or the panic that aborted it.  The engine itself and the
    process environment are external collaborators: [Parse] is embedded over
    an interface ([FlagEngine]) with the three engine operations it calls. *)

From Stdlib Require Import String Ascii List ZArith Bool Arith Lia.
Import ListNotations.
Local Open Scope list_scope.
Local Open Scope string_scope.

Set Implicit Arguments.
Set Warnings "-register-all".

(** ** The [strings] functions used by [DefaultConfig]

    Strings are sequences of bytes; flag names are taken to be ASCII, so
    case mapping and white space are the ASCII ones. *)
Module strings.

Fixpoint map_bytes (f : ascii -> ascii) (s : string) : string :=
  match s with
  | EmptyString => EmptyString
  | String c s' => String (f c) (map_bytes f s')
  end.

Definition is_lower (c : ascii) : bool :=
  (97 <=? nat_of_ascii c)%nat && (nat_of_ascii c <=? 122)%nat.

Definition upper_byte (c : ascii) : ascii :=
  if is_lower c then ascii_of_nat (nat_of_ascii c - 32) else c.

(** [strings.ToUpper] *)
Definition ToUpper (s : string) : string := map_bytes upper_byte s.

(** [strings.ReplaceAll s old new] where [old] and [new] are one byte
    long, the only way the source calls it. *)
Definition ReplaceAll (s : string) (old new : ascii) : string :=
  map_bytes (fun c => if Ascii.eqb c old then new else c) s.

(** [strings.Contains s sep] for a one-byte [sep]. *)
Fixpoint Contains (s : string) (sep : ascii) : bool :=
  match s with
  | EmptyString => false
  | String c s' => Ascii.eqb c sep || Contains s' sep
  end.

(** [strings.SplitN(s, sep, 2)[0]]: the text before the first [sep]. *)
Fixpoint SplitN2_head (s : string) (sep : ascii) : string :=
  match s with
  | EmptyString => EmptyString
  | String c s' => if Ascii.eqb c sep then EmptyString
                   else String c (SplitN2_head s' sep)
  end.

Definition is_space (c : ascii) : bool :=
  match nat_of_ascii c with
  | 9 | 10 | 11 | 12 | 13 | 32 => true
  | _ => false
  end.

Fixpoint TrimLeft (s : string) : string :=
  match s with
  | EmptyString => EmptyString
  | String c s' => if is_space c then TrimLeft s' else s
  end.

Fixpoint TrimRight (s : string) : string :=
  match s with
  | EmptyString => EmptyString
  | String c s' =>
      match TrimRight s' with
      | EmptyString => if is_space c then EmptyString
                       else String c EmptyString
      | t => String c t
      end
  end.

(** [strings.TrimSpace] *)
Definition TrimSpace (s : string) : string := TrimRight (TrimLeft s).

End strings.

(** ** The part of [reflect] the walker uses *)
Module reflect.

(** [reflect.Kind] *)
Inductive Kind : Set :=
| Invalid | Bool | Int | Int8 | Int16 | Int32 | Int64
| Uint | Uint8 | Uint16 | Uint32 | Uint64 | Uintptr
| Float32 | Float64 | Complex64 | Complex128
| Array | Chan | Func | Interface | Map | Ptr | Slice | String | Struct
| UnsafePointer.

(** The name of a defined type: [Type.PkgPath] and [Type.Name]; both
    empty for an unnamed (composite) type. *)
Record TypeName : Set := { PkgPath : string; Name : string }.

Definition unnamed : TypeName := {| PkgPath := ""; Name := "" |}.

(** [reflect.StructTag], already split into its [key:"value"] pairs, in
    the order they are written. *)
Definition StructTag : Set := list (string * string).

(** [StructTag.Lookup]: the value of the first pair with that key. *)
Fixpoint Lookup (tag : StructTag) (key : string) : option string :=
  match tag with
  | [] => None
  | (k, v) :: tag' => if String.eqb k key then Some v else Lookup tag' key
  end.

(** [reflect.StructField], over the representation [T] of types.
    [FPkgPath] is empty exactly for exported fields. *)
Record StructField (T : Type) : Type := {
  FName : string;
  FPkgPath : string;
  FType : T;
  Tag : StructTag;
  Anonymous : bool
}.

(** [StructField.IsExported] *)
Definition IsExported {T} (f : StructField T) : bool :=
  String.eqb (FPkgPath f) "".

(** [reflect.Type].  [TScalar] stands for every type whose structure the
    walker never opens: the basic kinds, and arrays, channels, functions,
    interfaces and maps; its kind is none of [Ptr], [Slice] and [Struct],
    which have constructors of their own. *)
Inductive rtype : Type :=
| TScalar (n : TypeName) (k : Kind)
| TPtr (n : TypeName) (elem : rtype)
| TSlice (n : TypeName) (elem : rtype)
| TStruct (n : TypeName) (fields : list (StructField rtype)).

(** [Type.Kind] *)
Definition kind (rt : rtype) : Kind :=
  match rt with
  | TScalar _ k => k
  | TPtr _ _ => Ptr
  | TSlice _ _ => Slice
  | TStruct _ _ => Struct
  end.

Definition type_name (rt : rtype) : TypeName :=
  match rt with
  | TScalar n _ | TPtr n _ | TSlice n _ | TStruct n _ => n
  end.

(** [reflect.PtrTo] *)
Definition PtrTo (rt : rtype) : rtype := TPtr unnamed rt.

(** [reflect.TypeOf(time.Second)] *)
Definition rTimeDurationType : rtype :=
  TScalar {| PkgPath := "time"; Name := "Duration" |} Int64.

(** [rt == rTimeDurationType] *)
Definition is_duration (rt : rtype) : bool :=
  match rt with
  | TScalar n Int64 =>
      String.eqb (PkgPath n) "time" && String.eqb (Name n) "Duration"
  | _ => false
  end.

(** The contents of a [reflect.Value].  Signed integers of every width
    are read with [Value.Int], unsigned ones with [Value.Uint]; a
    [float64] is kept as its 64 bits, which the walker only copies. *)
Inductive value : Type :=
| VInvalid
| VBool (b : bool)
| VInt (i : Z)
| VUint (u : Z)
| VFloat (bits : Z)
| VString (s : string)
| VPtr (pointee : option value)
| VSlice (elems : list value)
| VStruct (fields : list value)
| VOpaque.

(** The permission bits of a [reflect.Value]: whether it was reached
    through an unexported field ([flagStickyRO]) or is itself an
    unexported embedded field ([flagEmbedRO]).  Every value the walker
    sees is addressable, since [Build] starts from a pointer. *)
Record flag : Set := { flagStickyRO : bool; flagEmbedRO : bool }.

Definition flag0 : flag := {| flagStickyRO := false; flagEmbedRO := false |}.

Definition flagRO (fl : flag) : bool := flagStickyRO fl || flagEmbedRO fl.

(** The flags of [v.Field(i)]: the sticky bit is inherited, the embed
    bit is not, and an unexported field sets one of them. *)
Definition field_flag (fl : flag) (rf : StructField rtype) : flag :=
  {| flagStickyRO := flagStickyRO fl
                     || (negb (IsExported rf) && negb (Anonymous rf));
     flagEmbedRO := negb (IsExported rf) && Anonymous rf |}.

(** [Value.CanInterface] *)
Definition CanInterface (fl : flag) : bool := negb (flagRO fl).

(** [reflect.New(rt).Elem()]: the zero value of a type. *)
Fixpoint Zero (rt : rtype) : value :=
  match rt with
  | TScalar _ k =>
      match k with
      | Bool => VBool false
      | Int | Int8 | Int16 | Int32 | Int64 => VInt 0
      | Uint | Uint8 | Uint16 | Uint32 | Uint64 | Uintptr => VUint 0
      | Float32 | Float64 => VFloat 0
      | String => VString ""
      | _ => VOpaque
      end
  | TPtr _ _ => VPtr None
  | TSlice _ _ => VSlice []
  | TStruct _ fields => VStruct (map (fun rf => Zero (FType rf)) fields)
  end.

(** A storage location inside the record [Build] was given: the steps
    from the record to it. *)
Inductive step : Set :=
| AtField (i : nat)
| Deref.

Definition ref : Set := list step.

End reflect.

(** ** The process environment ([os]) *)
Module os.

(** The environment block: [NAME=value] entries, the first one for a
    name being the one in force. *)
Definition Environ : Set := list (string * string).

Fixpoint LookupEnv (env : Environ) (key : string) : option string :=
  match env with
  | [] => None
  | (k, v) :: env' => if String.eqb k key then Some v else LookupEnv env' key
  end.

(** [os.Getenv]: the empty string when the variable is not present. *)
Definition Getenv (env : Environ) (key : string) : string :=
  match LookupEnv env key with
  | Some v => v
  | None => ""
  end.

End os.

(** ** The calls the walker makes on the flag engine ([pflag])

    One constructor per registration operation of [pflag.FlagSet] used by
    [walkField], with the arguments of the source: the bound storage, the
    name, the shorthand, the default value and the usage text.  [VarP]
    takes a [pflag.Value]: the pointer to the custom value, [None] when
    that pointer is nil. *)
Module pflag.

Inductive ErrorHandling : Set :=
| ContinueOnError
| ExitOnError
| PanicOnError.

Inductive Call : Type :=
| BoolVarP (p : reflect.ref) (name shorthand : string) (value : bool) (usage : string)
| Float64VarP (p : reflect.ref) (name shorthand : string) (value : Z) (usage : string)
| DurationVarP (p : reflect.ref) (name shorthand : string) (value : Z) (usage : string)
| Int64VarP (p : reflect.ref) (name shorthand : string) (value : Z) (usage : string)
| IntVarP (p : reflect.ref) (name shorthand : string) (value : Z) (usage : string)
| StringVarP (p : reflect.ref) (name shorthand : string) (value : string) (usage : string)
| Uint64VarP (p : reflect.ref) (name shorthand : string) (value : Z) (usage : string)
| UintVarP (p : reflect.ref) (name shorthand : string) (value : Z) (usage : string)
| BoolSliceVarP (p : reflect.ref) (name shorthand : string) (value : list bool) (usage : string)
| Float64SliceVarP (p : reflect.ref) (name shorthand : string) (value : list Z) (usage : string)
| DurationSliceVarP (p : reflect.ref) (name shorthand : string) (value : list Z) (usage : string)
| Int64SliceVarP (p : reflect.ref) (name shorthand : string) (value : list Z) (usage : string)
| IntSliceVarP (p : reflect.ref) (name shorthand : string) (value : list Z) (usage : string)
| StringSliceVarP (p : reflect.ref) (name shorthand : string) (value : list string) (usage : string)
| UintSliceVarP (p : reflect.ref) (name shorthand : string) (value : list Z) (usage : string)
| VarP (value : option reflect.ref) (name shorthand usage : string).

(** The name a call registers. *)
Definition call_name (c : Call) : string :=
  match c with
  | BoolVarP _ n _ _ _ | Float64VarP _ n _ _ _ | DurationVarP _ n _ _ _
  | Int64VarP _ n _ _ _ | IntVarP _ n _ _ _ | StringVarP _ n _ _ _
  | Uint64VarP _ n _ _ _ | UintVarP _ n _ _ _ | BoolSliceVarP _ n _ _ _
  | Float64SliceVarP _ n _ _ _ | DurationSliceVarP _ n _ _ _
  | Int64SliceVarP _ n _ _ _ | IntSliceVarP _ n _ _ _
  | StringSliceVarP _ n _ _ _ | UintSliceVarP _ n _ _ _ => n
  | VarP _ n _ _ => n
  end.

(** The storage a call binds; [None] for a nil custom value. *)
Definition call_target (c : Call) : option reflect.ref :=
  match c with
  | BoolVarP p _ _ _ _ | Float64VarP p _ _ _ _ | DurationVarP p _ _ _ _
  | Int64VarP p _ _ _ _ | IntVarP p _ _ _ _ | StringVarP p _ _ _ _
  | Uint64VarP p _ _ _ _ | UintVarP p _ _ _ _ | BoolSliceVarP p _ _ _ _
  | Float64SliceVarP p _ _ _ _ | DurationSliceVarP p _ _ _ _
  | Int64SliceVarP p _ _ _ _ | IntSliceVarP p _ _ _ _
  | StringSliceVarP p _ _ _ _ | UintSliceVarP p _ _ _ _ => Some p
  | VarP v _ _ _ => v
  end.

End pflag.

(** ** Configuration *)

(** [Config].  [EnvNameFunc] is a closure over the configuration: the one
    [DefaultConfig] installs reads [c.EnvPrefix] when it is called, so it
    is given the prefix in force at the call. *)
Record Config : Type := {
  HandlingMode : pflag.ErrorHandling;
  EnvvarSupport : bool;
  EnvPrefix : string;
  EnvNameFunc : string -> string -> string;
  FlagnameTags : list string;
  FlagNameFunc : string -> string;
  ShorthandTag : string;
  HelpTextTag : string
}.

(** [c.EnvNameFunc(name)] *)
Definition call_EnvNameFunc (c : Config) (name : string) : string :=
  EnvNameFunc c (EnvPrefix c) name.

Definition default_EnvNameFunc (prefix name : string) : string :=
  prefix ++ strings.ReplaceAll
              (strings.ReplaceAll (strings.ToUpper name) "-" "_") "." "_".

Definition default_FlagNameFunc (v : string) : string :=
  if strings.Contains v ","
  then strings.TrimSpace (strings.SplitN2_head v ",")
  else v.

(** [DefaultConfig], in the environment [env]. *)
Definition DefaultConfig (env : os.Environ) : Config :=
  {| FlagnameTags := ["flag"];
     ShorthandTag := "short";
     HelpTextTag := "help";
     EnvvarSupport := true;
     HandlingMode := pflag.ExitOnError;
     EnvPrefix := os.Getenv env "ENV_PREFIX";
     EnvNameFunc := default_EnvNameFunc;
     FlagNameFunc := default_FlagNameFunc |}.

(** [Builder]: a name and the (embedded) configuration. *)
Record Builder : Type := {
  Name : string;
  config : Config
}.

(** [NewBuilder]; [arg0] is [os.Args[0]]. *)
Definition NewBuilder (arg0 : string) (env : os.Environ) : Builder :=
  {| Name := arg0; config := DefaultConfig env |}.

(** ** Abrupt termination *)

(** Why a call of [Build] panicked: the three panics of the source, and
    the run-time panics of the [reflect] operations it uses. *)
Inductive Panic : Type :=
| NotPointerOfStruct (rt : reflect.rtype)    (* "%v is not pointer of struct" *)
| UnsupportedType (rt : reflect.rtype)       (* "unsupported type %v" *)
| UnsupportedSliceType (rt : reflect.rtype)  (* "unsupported slice type %v" *)
| NilType          (* a method called on the nil [reflect.Type] of a nil interface *)
| ReflectNumField  (* [Type.NumField] of a type that is not a struct *)
| ReflectField     (* [Value.Field] of a value that has no such field *)
| ReflectKind      (* [Value.Bool], [Value.Int], ... of a value of another kind *)
| ReflectIndex     (* [Value.Index] out of range *)
| ReflectSetRO     (* [Value.Set] on a value obtained using an unexported field *)
| ReflectCallRO    (* [Value.Call] with such a value as argument *)
| NilValueMethod.  (* a value method called using a nil pointer *)

Inductive result (A : Type) : Type :=
| Ok (a : A)
| Panicked (why : Panic).

Arguments Ok {A} a.
Arguments Panicked {A} why.

Definition bind {A B : Type} (m : result A) (k : A -> result B) : result B :=
  match m with
  | Ok a => k a
  | Panicked why => Panicked why
  end.

Declare Scope walk_scope.
Delimit Scope walk_scope with walk.
Notation "x <- m ;; k" := (bind m (fun x => k))
  (at level 61, m at next level, right associativity) : walk_scope.
Notation "' pat <- m ;; k" := (bind m (fun x => match x with pat => k end))
  (at level 61, pat pattern, m at next level, right associativity) : walk_scope.

(** ** Reading a [reflect.Value] *)

Definition Field (rv : reflect.value) (i : nat) : option reflect.value :=
  match rv with
  | reflect.VStruct vs => nth_error vs i
  | _ => None
  end.

Fixpoint set_nth {A : Type} (l : list A) (i : nat) (x : A) : list A :=
  match l, i with
  | [], _ => []
  | _ :: l', O => x :: l'
  | y :: l', S i' => y :: set_nth l' i' x
  end.

(** The record after the storage of field [i] has been given contents [x]. *)
Definition SetField (rv : reflect.value) (i : nat) (x : reflect.value)
  : reflect.value :=
  match rv with
  | reflect.VStruct vs => reflect.VStruct (set_nth vs i x)
  | _ => rv
  end.

Definition Len (fv : reflect.value) : option nat :=
  match fv with
  | reflect.VSlice xs => Some (length xs)
  | _ => None
  end.

Definition Index (fv : reflect.value) (i : nat) : option reflect.value :=
  match fv with
  | reflect.VSlice xs => nth_error xs i
  | _ => None
  end.

Definition as_Bool (v : reflect.value) : option bool :=
  match v with reflect.VBool b => Some b | _ => None end.
Definition as_Int (v : reflect.value) : option Z :=
  match v with reflect.VInt i => Some i | _ => None end.
Definition as_Uint (v : reflect.value) : option Z :=
  match v with reflect.VUint u => Some u | _ => None end.
Definition as_Float (v : reflect.value) : option Z :=
  match v with reflect.VFloat f => Some f | _ => None end.
Definition as_String (v : reflect.value) : option string :=
  match v with reflect.VString s => Some s | _ => None end.

(** [fv.Bool()], [fv.Int()], ...: the reading, or the panic of [reflect]
    on a value of another kind. *)
Definition read {A : Type} (get : reflect.value -> option A)
  (fv : reflect.value) : result A :=
  match get fv with
  | Some a => Ok a
  | None => Panicked ReflectKind
  end.

(** The loop
    [for i := 0; i < fv.Len(); i++ { defaultValue = append(defaultValue, get(fv.Index(i))) }]
    with [n] iterations left, at index [i]. *)
Fixpoint copy_loop {A : Type} (get : reflect.value -> option A)
  (fv : reflect.value) (n i : nat) (defaultValue : list A) : result (list A) :=
  match n with
  | O => Ok defaultValue
  | S n' =>
      match Index fv i with
      | None => Panicked ReflectIndex
      | Some x =>
          match get x with
          | None => Panicked ReflectKind
          | Some a => copy_loop get fv n' (S i) (defaultValue ++ [a])%list
          end
      end
  end.

Definition copy_out {A : Type} (get : reflect.value -> option A)
  (fv : reflect.value) : result (list A) :=
  match Len fv with
  | None => Panicked ReflectKind
  | Some n => copy_loop get fv n 0 []
  end.

(** ** The walker *)

(** [fieldcontext] *)
Record fieldcontext : Type := {
  fieldname : string;
  helpText : string;
  shorthand : string;
  prefix : string;
  hasFlagname : bool;
  field : reflect.StructField reflect.rtype
}.

(** What [Build] hands back: the flag set it created in the engine, given
    by the arguments of [NewFlagSet] and the registration calls made on it
    in order, and the record as [Build] left it. *)
Record Built : Type := {
  built_name : string;
  built_mode : pflag.ErrorHandling;
  built_calls : list pflag.Call;
  built_record : reflect.value
}.

Definition tab : string := String "009" EmptyString.

Section Walker.

(** The method sets of the program's types, which [reflect] consults:
    [implements ft] is [ft.Implements(rFlagValueType)], and
    [HasHelpText rt v] tells whether the assertion
    [v.Interface().(HasHelpText)] succeeds for a value [v] of type [rt] and,
    if so, what calling [HelpText] on it gives: a text, or a panic (a
    value method called through a nil pointer). *)
Variable implements : reflect.rtype -> bool.
Variable HasHelpText : reflect.rtype -> reflect.value -> option (result string).

Variable b : Builder.

(** The loop [for j := len(b.FlagnameTags) - 1; j >= 0; j--] of [walk],
    with [j] iterations left: the next index is [j - 1]. *)
Fixpoint flagname_loop (tag : reflect.StructTag) (j : nat)
  (acc : string * bool) : string * bool :=
  match j with
  | O => acc
  | S j' =>
      flagname_loop tag j'
        match nth_error (FlagnameTags (config b)) j' with
        | Some key =>
            match reflect.Lookup tag key with
            | Some v => (v, true)
            | None => acc
            end
        | None => acc
        end
  end.

(** The pointer a custom value of pointer kind holds: the address of its
    pointee, or nil. *)
Definition pointer_target (p : reflect.ref) (fv : reflect.value)
  : option reflect.ref :=
  match fv with
  | reflect.VPtr (Some _) => Some (p ++ [reflect.Deref])%list
  | _ => None
  end.

(** The help text [walk] works out for a field that is not skipped,
    [fieldname] being its external name; calling [HelpText] may panic. *)
Definition field_helpText (fl : reflect.flag)
  (rf : reflect.StructField reflect.rtype) (fv : reflect.value)
  (fieldname : string) : result string :=
  (helpText <-
     match reflect.Lookup (reflect.Tag rf) (HelpTextTag (config b)) with
     | Some v => Ok v
     | None =>
         if reflect.CanInterface (reflect.field_flag fl rf)
         then match HasHelpText (reflect.FType rf) fv with
              | Some text => text
              | None => Ok "-"
              end
         else Ok "-"
     end ;;
   if EnvvarSupport (config b)
   then Ok (("ENV: " ++ call_EnvNameFunc (config b) fieldname ++ tab) ++ helpText)
   else Ok helpText)%walk.

(** The shorthand [walk] works out for it. *)
Definition field_shorthand (rf : reflect.StructField reflect.rtype)
  (prefix : string) : string :=
  match reflect.Lookup (reflect.Tag rf) (ShorthandTag (config b)) with
  | Some v => if prefix =? "" then v else ""
  | None => ""
  end.

Section Fields.

Variable walkField :
  reflect.rtype -> reflect.flag -> reflect.ref -> reflect.value ->
  fieldcontext -> result (list pflag.Call * reflect.value).

(** The loop of [walk] from field [i] on, [fields] being the fields
    of [rt] from [i]; [rv] sits at [p] and carries the flags [fl]. *)
Fixpoint walk_loop (fields : list (reflect.StructField reflect.rtype))
  (i : nat) (fl : reflect.flag) (p : reflect.ref) (rv : reflect.value)
  (prefix : string) : result (list pflag.Call * reflect.value) :=
  match fields with
  | [] => Ok ([], rv)
  | rf :: rest =>
      match Field rv i with
      | None => Panicked ReflectField
      | Some fv =>
          let '(fieldname, hasFlagname) :=
            flagname_loop (reflect.Tag rf)
              (length (FlagnameTags (config b))) (reflect.FName rf, false) in
          if fieldname =? "-" then walk_loop rest (S i) fl p rv prefix
          else if negb hasFlagname && negb (reflect.IsExported rf)
          then walk_loop rest (S i) fl p rv prefix
          else
            let fieldname := FlagNameFunc (config b) (prefix ++ fieldname) in
            let shorthand := field_shorthand rf prefix in
            (helpText <- field_helpText fl rf fv fieldname ;;
             ' (calls, fv') <-
               walkField (reflect.FType rf) (reflect.field_flag fl rf)
                 (p ++ [reflect.AtField i])%list fv
                 {| fieldname := fieldname;
                    helpText := helpText;
                    shorthand := shorthand;
                    prefix := prefix;
                    hasFlagname := hasFlagname;
                    field := rf |} ;;
             ' (calls', rv') <-
               walk_loop rest (S i) fl p (SetField rv i fv') prefix ;;
             Ok ((calls ++ calls')%list, rv'))%walk
      end
  end.

End Fields.

(** [Builder.walkField].  [fv] is the value of type [rt] stored at [p];
    the result carries the calls made on the engine and [fv] as the call
    leaves it. *)
Fixpoint walkField (rt : reflect.rtype) (fl : reflect.flag)
  (p : reflect.ref) (fv : reflect.value) (c : fieldcontext)
  : result (list pflag.Call * reflect.value) :=
  if implements match reflect.kind rt with
                | reflect.Ptr => rt
                | _ => reflect.PtrTo rt
                end
  then
    if reflect.flagRO fl then Panicked ReflectCallRO
    else
      Ok ([pflag.VarP match reflect.kind rt with
                      | reflect.Ptr => pointer_target p fv
                      | _ => Some p
                      end
             (fieldname c) (shorthand c) (helpText c)], fv)
  else
    match rt with
    | reflect.TPtr _ elem =>
        match fv with
        | reflect.VPtr None =>
            if negb (hasFlagname c) then Ok ([], fv)
            else if reflect.flagRO fl then Panicked ReflectSetRO
            else
              (' (calls, x') <-
                 walkField elem fl (p ++ [reflect.Deref])%list (reflect.Zero elem) c ;;
               Ok (calls, reflect.VPtr (Some x')))%walk
        | reflect.VPtr (Some x) =>
            (' (calls, x') <- walkField elem fl (p ++ [reflect.Deref])%list x c ;;
             Ok (calls, reflect.VPtr (Some x')))%walk
        | _ => Panicked ReflectKind
        end
    | reflect.TStruct _ fields =>
        if reflect.Anonymous (field c)
        then walk_loop walkField fields 0 fl p fv (prefix c)
        else walk_loop walkField fields 0 fl p fv
               (prefix c ++ fieldname c ++ ".")
    | reflect.TScalar _ reflect.Bool =>
        (x <- read as_Bool fv ;;
         Ok ([pflag.BoolVarP p (fieldname c) (shorthand c) x (helpText c)], fv))%walk
    | reflect.TScalar _ reflect.Float64 =>
        (x <- read as_Float fv ;;
         Ok ([pflag.Float64VarP p (fieldname c) (shorthand c) x (helpText c)], fv))%walk
    | reflect.TScalar _ reflect.Int64 =>
        if reflect.is_duration rt
        then (x <- read as_Int fv ;;
              Ok ([pflag.DurationVarP p (fieldname c) (shorthand c) x (helpText c)], fv))%walk
        else (x <- read as_Int fv ;;
              Ok ([pflag.Int64VarP p (fieldname c) (shorthand c) x (helpText c)], fv))%walk
    | reflect.TScalar _ reflect.Int =>
        (x <- read as_Int fv ;;
         Ok ([pflag.IntVarP p (fieldname c) (shorthand c) x (helpText c)], fv))%walk
    | reflect.TScalar _ reflect.String =>
        (x <- read as_String fv ;;
         Ok ([pflag.StringVarP p (fieldname c) (shorthand c) x (helpText c)], fv))%walk
    | reflect.TScalar _ reflect.Uint64 =>
        (x <- read as_Uint fv ;;
         Ok ([pflag.Uint64VarP p (fieldname c) (shorthand c) x (helpText c)], fv))%walk
    | reflect.TScalar _ reflect.Uint =>
        (x <- read as_Uint fv ;;
         Ok ([pflag.UintVarP p (fieldname c) (shorthand c) x (helpText c)], fv))%walk
    | reflect.TSlice _ elem =>
        match reflect.kind elem with
        | reflect.Bool =>
            (defaultValue <- copy_out as_Bool fv ;;
             Ok ([pflag.BoolSliceVarP p (fieldname c) (shorthand c) defaultValue (helpText c)], fv))%walk
        | reflect.Float64 =>
            (defaultValue <- copy_out as_Float fv ;;
             Ok ([pflag.Float64SliceVarP p (fieldname c) (shorthand c) defaultValue (helpText c)], fv))%walk
        | reflect.Int64 =>
            if reflect.is_duration elem
            then (defaultValue <- copy_out as_Int fv ;;
                  Ok ([pflag.DurationSliceVarP p (fieldname c) (shorthand c) defaultValue (helpText c)], fv))%walk
            else (defaultValue <- copy_out as_Int fv ;;
                  Ok ([pflag.Int64SliceVarP p (fieldname c) (shorthand c) defaultValue (helpText c)], fv))%walk
        | reflect.Int =>
            (defaultValue <- copy_out as_Int fv ;;
             Ok ([pflag.IntSliceVarP p (fieldname c) (shorthand c) defaultValue (helpText c)], fv))%walk
        | reflect.String =>
            (defaultValue <- copy_out as_String fv ;;
             Ok ([pflag.StringSliceVarP p (fieldname c) (shorthand c) defaultValue (helpText c)], fv))%walk
        | reflect.Uint =>
            (defaultValue <- copy_out as_Uint fv ;;
             Ok ([pflag.UintSliceVarP p (fieldname c) (shorthand c) defaultValue (helpText c)], fv))%walk
        | _ => Panicked (UnsupportedSliceType rt)
        end
    | _ => Panicked (UnsupportedType rt)
    end.

(** [Builder.walk]: [rt.NumField()] panics unless [rt] is a struct. *)
Definition walk (rt : reflect.rtype) (fl : reflect.flag) (p : reflect.ref)
  (rv : reflect.value) (prefix : string)
  : result (list pflag.Call * reflect.value) :=
  match rt with
  | reflect.TStruct _ fields => walk_loop walkField fields 0 fl p rv prefix
  | _ => Panicked ReflectNumField
  end.

(** [Builder.Build].  [o] is the interface value passed in: its dynamic
    type and value, [None] for the nil interface.  [rv.Elem()] of a nil
    pointer is the zero [reflect.Value]. *)
Definition Build (o : option (reflect.rtype * reflect.value)) : result Built :=
  match o with
  | None => Panicked NilType
  | Some (rt, rv) =>
      match rt with
      | reflect.TPtr _ elem =>
          let rv := match rv with
                    | reflect.VPtr (Some x) => x
                    | _ => reflect.VInvalid
                    end in
          let name := if Name b =? ""
                      then reflect.Name (reflect.type_name elem)
                      else Name b in
          (' (calls, rv') <- walk elem reflect.flag0 [] rv "" ;;
           Ok {| built_name := name;
                 built_mode := HandlingMode (config b);
                 built_calls := calls;
                 built_record := rv' |})%walk
      | _ => Panicked (NotPointerOfStruct rt)
      end
  end.

End Walker.

(** ** [FlagSet.Parse] *)

(** A Go [error], by its message. *)
Definition error : Set := string.

(** How the [Parse] of a [pflag.FlagSet] ends: it returns nil, it returns an
    error, or it does not return (under [ExitOnError] and [PanicOnError]
    the engine leaves the process on a parse failure). *)
Inductive ParseOutcome : Set :=
| ParseOk
| ParseErr (err : error)
| ParseStop.

(** The engine operations [FlagSet.Parse] calls, over the state [engine]
    of a [pflag.FlagSet] together with the storage its flags are bound
    to.  [engine_VisitAll] lists the names of the flags [VisitAll] calls
    its argument on, in that order. *)
Class FlagEngine : Type := {
  engine : Type;
  engine_Parse : list string -> engine -> ParseOutcome * engine;
  engine_VisitAll : engine -> list string;
  engine_Set : string -> string -> engine -> option error * engine
}.

(** What [FlagSet.Parse] does besides calling the engine's [Parse]. *)
Inductive Event : Set :=
| Getenv (key : string)
| SetFlag (name value : string).

Inductive ParseReturn : Set :=
| Returned (retErr : option error)
| Stopped.

Section Parse.

Context {E : FlagEngine}.

(** [FlagSet]: the engine's flag set and the builder. *)
Record FlagSet : Type := {
  FlagSet_flags : engine;
  builder : Builder
}.

(** The variables of [Parse] while [VisitAll] runs, and what it has
    done so far. *)
Record Overlay : Type := {
  retErr : option error;
  flags : engine;
  events : list Event
}.

(** [fmt.Errorf("on envvar %s=%v, %+v", envname, v, err)] *)
Definition envvar_error (envname v : string) (err : error) : error :=
  "on envvar " ++ envname ++ "=" ++ v ++ ", " ++ err.

(** The function [Parse] passes to [VisitAll], called on flag [name]. *)
Definition visit (b : Builder) (env : os.Environ) (st : Overlay)
  (name : string) : Overlay :=
  let envname := call_EnvNameFunc (config b) name in
  let v := os.Getenv env envname in
  if v =? "" then
    {| retErr := retErr st;
       flags := flags st;
       events := (events st ++ [Getenv envname])%list |}
  else
    let (err, s) := engine_Set name v (flags st) in
    {| retErr := match err with
                 | Some err => Some (envvar_error envname v err)
                 | None => retErr st
                 end;
       flags := s;
       events := (events st ++ [Getenv envname; SetFlag name v])%list |}.

Record Parsed : Type := {
  returned : ParseReturn;
  after : engine;
  overlay : list Event
}.

(** [FlagSet.Parse], in the environment [env]. *)
Definition Parse (fs : FlagSet) (args : list string) (env : os.Environ)
  : Parsed :=
  match engine_Parse args (FlagSet_flags fs) with
  | (ParseErr err, s) =>
      {| returned := Returned (Some err); after := s; overlay := [] |}
  | (ParseStop, s) =>
      {| returned := Stopped; after := s; overlay := [] |}
  | (ParseOk, s) =>
      if EnvvarSupport (config (builder fs)) then
        let st := fold_left (visit (builder fs) env) (engine_VisitAll s)
                    {| retErr := None; flags := s; events := [] |} in
        {| returned := Returned (retErr st);
           after := flags st;
           overlay := events st |}
      else
        {| returned := Returned None; after := s; overlay := [] |}
  end.

End Parse.

Arguments FlagSet E : clear implicits.
Arguments Overlay E : clear implicits.
Arguments Parsed E : clear implicits.

(** What the engine promises about the storage its flags are bound to.
    [contents s name] is what the storage bound to flag [name] holds
    ([None] if there is no such flag); [mentions s args name] tells whether
    some argument of [args] is an occurrence of that flag. *)
Class EngineContract (E : FlagEngine) : Type := {
  contents : engine -> string -> option reflect.value;
  mentions : engine -> list string -> string -> bool;
  Set_frame : forall s name v r s' other,
    engine_Set name v s = (r, s') -> other <> name ->
    contents s' other = contents s other;
  Parse_frame : forall s args o s' name,
    engine_Parse args s = (o, s') -> mentions s args name = false ->
    contents s' name = contents s name;
  VisitAll_NoDup : forall s, NoDup (engine_VisitAll s)
}.

(** ** The custom value of the tests: [LogLevel] *)
Module LogLevel.

Definition type : reflect.rtype :=
  reflect.TScalar {| reflect.PkgPath := "structflag_test";
                     reflect.Name := "LogLevel" |} reflect.String.

(** [LogLevel.Validate] *)
Definition Validate (v : string) : option error :=
  if (v =? "DEBUG") || (v =? "INFO") || (v =? "WARN") || (v =? "ERROR")
  then None
  else Some (v ++ " is an invalid value for structflag_test.LogLevel").

(** [LogLevel.HelpText] *)
Definition HelpText : string := "log level {DEBUG, INFO, WARN, ERROR}".

(** [LogLevel.String], on a pointer receiver: [None] when it is nil. *)
Definition String_ (v : option string) : string :=
  match v with
  | None => "<nil>"
  | Some s => s
  end.

(** [LogLevel.Set], on a pointer receiver: the value the receiver
    points to afterwards, and the error. *)
Definition Set_ (v : option string) (value : string)
  : option string * option error :=
  match v with
  | None => (None, Some "nil is invalid for *structflag_test.LogLevel")
  | Some _ =>
      let v' := strings.ToUpper value in
      (Some v', Validate v')
  end.

(** [LogLevel.Type] *)
Definition Type_ : string := "LogLevel".

(** [Set] through a flag bound to a field of type [LogLevel] (the
    receiver is the field's address) or [*LogLevel] (the receiver is the
    pointer the field holds): the field afterwards, and the error. *)
Definition set_field (value : string) (fv : reflect.value)
  : reflect.value * option error :=
  match fv with
  | reflect.VString s =>
      match Set_ (Some s) value with
      | (Some s', err) => (reflect.VString s', err)
      | (None, err) => (fv, err)
      end
  | reflect.VPtr (Some (reflect.VString s)) =>
      match Set_ (Some s) value with
      | (Some s', err) => (reflect.VPtr (Some (reflect.VString s')), err)
      | (None, err) => (fv, err)
      end
  | _ => (fv, snd (Set_ None value))
  end.

(** The method sets: a pointer to [LogLevel] is a [pflag.Value], and both
    [LogLevel] and its pointer have [HelpText], which on a nil pointer
    cannot be called. *)
Definition is_type (rt : reflect.rtype) : bool :=
  match rt with
  | reflect.TScalar n reflect.String =>
      (reflect.PkgPath n =? "structflag_test") && (reflect.Name n =? "LogLevel")
  | _ => false
  end.

Definition is_pointer (rt : reflect.rtype) : bool :=
  match rt with
  | reflect.TPtr n elem =>
      (reflect.PkgPath n =? "") && (reflect.Name n =? "") && is_type elem
  | _ => false
  end.

Definition implements (ft : reflect.rtype) : bool := is_pointer ft.

Definition HasHelpText (rt : reflect.rtype) (v : reflect.value)
  : option (result string) :=
  if is_type rt then Some (Ok HelpText)
  else if is_pointer rt then
    match v with
    | reflect.VPtr (Some _) => Some (Ok HelpText)
    | _ => Some (Panicked NilValueMethod)
    end
  else None.

End LogLevel.

(** ** A small engine

    An engine for long options of the form [--name=value], each flag
    owning the storage it is bound to and the [Set] of its value: enough
    of the engine's contract to run [Parse] on examples.  [VisitAll] goes
    through the flags in the order they were registered. *)
Module engine0.

Record Flag : Type := {
  flag_name : string;
  flag_contents : reflect.value;
  flag_set : string -> reflect.value -> reflect.value * option error
}.

Record state : Type := {
  errorHandling : pflag.ErrorHandling;
  formal : list Flag
}.

Fixpoint lookup (l : list Flag) (name : string) : option Flag :=
  match l with
  | [] => None
  | f :: l' => if flag_name f =? name then Some f else lookup l' name
  end.

Fixpoint store (l : list Flag) (name : string) (x : reflect.value)
  : list Flag :=
  match l with
  | [] => []
  | f :: l' =>
      if flag_name f =? name
      then {| flag_name := flag_name f;
              flag_contents := x;
              flag_set := flag_set f |} :: l'
      else f :: store l' name x
  end.

Definition quote (s : string) : string :=
  String "034" (s ++ String "034" EmptyString).

Definition Set_ (name value : string) (s : state) : option error * state :=
  match lookup (formal s) name with
  | None => (Some ("no such flag -" ++ name), s)
  | Some f =>
      let (x, err) := flag_set f value (flag_contents f) in
      let s' := {| errorHandling := errorHandling s;
                   formal := store (formal s) name x |} in
      match err with
      | Some err =>
          (Some ("invalid argument " ++ quote value ++ " for "
                   ++ quote ("--" ++ name) ++ " flag: " ++ err), s')
      | None => (None, s')
      end
  end.

(** The text after the first [sep], if [sep] occurs. *)
Fixpoint after_sep (s : string) (sep : ascii) : option string :=
  match s with
  | EmptyString => None
  | String c s' => if Ascii.eqb c sep then Some s' else after_sep s' sep
  end.

(** An argument [--name] or [--name=value]. *)
Definition long_option (a : string) : option (string * option string) :=
  match a with
  | String "-" (String "-" body) =>
      Some (strings.SplitN2_head body "=", after_sep body "=")
  | _ => None
  end.

Fixpoint parseArgs (args : list string) (s : state) : option error * state :=
  match args with
  | [] => (None, s)
  | a :: rest =>
      match long_option a with
      | None => parseArgs rest s
      | Some (name, value) =>
          match lookup (formal s) name, value with
          | None, _ => (Some ("unknown flag: --" ++ name), s)
          | Some _, None => (Some ("flag needs an argument: --" ++ name), s)
          | Some _, Some v =>
              match Set_ name v s with
              | (Some err, s') => (Some err, s')
              | (None, s') => parseArgs rest s'
              end
          end
      end
  end.

Definition Parse_ (args : list string) (s : state) : ParseOutcome * state :=
  match parseArgs args s with
  | (None, s') => (ParseOk, s')
  | (Some err, s') =>
      match errorHandling s with
      | pflag.ContinueOnError => (ParseErr err, s')
      | _ => (ParseStop, s')
      end
  end.

Definition VisitAll (s : state) : list string :=
  nodup string_dec (map flag_name (formal s)).

Definition contents_ (s : state) (name : string) : option reflect.value :=
  option_map flag_contents (lookup (formal s) name).

Definition mentions_ (s : state) (args : list string) (name : string) : bool :=
  existsb (fun a => match long_option a with
                    | Some (n, _) => n =? name
                    | None => false
                    end) args.

(** The [Set] of the engine's own string value: it stores the text. *)
Definition stringValue (value : string) (_ : reflect.value)
  : reflect.value * option error :=
  (reflect.VString value, None).

#[export] Instance Engine : FlagEngine := {|
  engine := state;
  engine_Parse := Parse_;
  engine_VisitAll := VisitAll;
  engine_Set := Set_
|}.

End engine0.

(** ** The statements of the specification, in its own words *)

(** "Later entries of the configured tag list win": the name resolved for
    a field is the value of the last configured tag the field carries. *)
Definition later_tag_wins (b : Builder) : Prop :=
  forall (tag : reflect.StructTag) (name : string) l1 k l2 v,
    FlagnameTags (config b) = (l1 ++ k :: l2)%list ->
    reflect.Lookup tag k = Some v ->
    (forall k', In k' l2 -> reflect.Lookup tag k' = None) ->
    flagname_loop b tag (length (FlagnameTags (config b))) (name, false)
    = (v, true).

(** The registration each leaf type is bound to, with the field's value as
    the default: the table of the specification. *)
Inductive LeafBinding : reflect.rtype -> reflect.value ->
  (reflect.ref -> string -> string -> string -> pflag.Call) -> Prop :=
| bind_bool n x :
    LeafBinding (reflect.TScalar n reflect.Bool) (reflect.VBool x)
      (fun p name short usage => pflag.BoolVarP p name short x usage)
| bind_float64 n x :
    LeafBinding (reflect.TScalar n reflect.Float64) (reflect.VFloat x)
      (fun p name short usage => pflag.Float64VarP p name short x usage)
| bind_duration x :
    LeafBinding reflect.rTimeDurationType (reflect.VInt x)
      (fun p name short usage => pflag.DurationVarP p name short x usage)
| bind_int64 n x :
    reflect.is_duration (reflect.TScalar n reflect.Int64) = false ->
    LeafBinding (reflect.TScalar n reflect.Int64) (reflect.VInt x)
      (fun p name short usage => pflag.Int64VarP p name short x usage)
| bind_int n x :
    LeafBinding (reflect.TScalar n reflect.Int) (reflect.VInt x)
      (fun p name short usage => pflag.IntVarP p name short x usage)
| bind_string n x :
    LeafBinding (reflect.TScalar n reflect.String) (reflect.VString x)
      (fun p name short usage => pflag.StringVarP p name short x usage)
| bind_uint64 n x :
    LeafBinding (reflect.TScalar n reflect.Uint64) (reflect.VUint x)
      (fun p name short usage => pflag.Uint64VarP p name short x usage)
| bind_uint n x :
    LeafBinding (reflect.TScalar n reflect.Uint) (reflect.VUint x)
      (fun p name short usage => pflag.UintVarP p name short x usage).

(** The same for sequences: the element type, the elements and the
    registration with the elements as the default sequence. *)
Inductive SliceBinding : reflect.rtype -> list reflect.value ->
  (reflect.ref -> string -> string -> string -> pflag.Call) -> Prop :=
| bind_bools elem xs :
    reflect.kind elem = reflect.Bool ->
    SliceBinding elem (map reflect.VBool xs)
      (fun p name short usage => pflag.BoolSliceVarP p name short xs usage)
| bind_float64s elem xs :
    reflect.kind elem = reflect.Float64 ->
    SliceBinding elem (map reflect.VFloat xs)
      (fun p name short usage => pflag.Float64SliceVarP p name short xs usage)
| bind_durations xs :
    SliceBinding reflect.rTimeDurationType (map reflect.VInt xs)
      (fun p name short usage => pflag.DurationSliceVarP p name short xs usage)
| bind_int64s elem xs :
    reflect.kind elem = reflect.Int64 ->
    reflect.is_duration elem = false ->
    SliceBinding elem (map reflect.VInt xs)
      (fun p name short usage => pflag.Int64SliceVarP p name short xs usage)
| bind_ints elem xs :
    reflect.kind elem = reflect.Int ->
    SliceBinding elem (map reflect.VInt xs)
      (fun p name short usage => pflag.IntSliceVarP p name short xs usage)
| bind_strings elem xs :
    reflect.kind elem = reflect.String ->
    SliceBinding elem (map reflect.VString xs)
      (fun p name short usage => pflag.StringSliceVarP p name short xs usage)
| bind_uints elem xs :
    reflect.kind elem = reflect.Uint ->
    SliceBinding elem (map reflect.VUint xs)
      (fun p name short usage => pflag.UintSliceVarP p name short xs usage).

(** The kinds the type dispatcher has a registration for. *)
Definition supported_leaf (rt : reflect.rtype) : bool :=
  match reflect.kind rt with
  | reflect.Bool | reflect.Float64 | reflect.Int64 | reflect.Int
  | reflect.String | reflect.Uint64 | reflect.Uint => true
  | _ => false
  end.

Definition supported_sequence (rt : reflect.rtype) : bool :=
  match rt with
  | reflect.TSlice _ elem =>
      match reflect.kind elem with
      | reflect.Bool | reflect.Float64 | reflect.Int64 | reflect.Int
      | reflect.String | reflect.Uint => true
      | _ => false
      end
  | _ => false
  end.

(** The type [walkField] tests for the custom-value capability. *)
Definition capability_type (rt : reflect.rtype) : reflect.rtype :=
  match reflect.kind rt with
  | reflect.Ptr => rt
  | _ => reflect.PtrTo rt
  end.

(** Whether [walk] goes on to dispatch a field, given the name resolved
    for it and whether a configured tag gave it. *)
Definition dispatched (rf : reflect.StructField reflect.rtype)
  (name : string) (hasFlagname : bool) : bool :=
  negb (name =? "-") && (hasFlagname || reflect.IsExported rf).

(** A field [walk] goes on to dispatch. *)
Definition visited (b : Builder) (rf : reflect.StructField reflect.rtype)
  : Prop :=
  let '(name, has) :=
    flagname_loop b (reflect.Tag rf) (length (FlagnameTags (config b)))
      (reflect.FName rf, false) in
  dispatched rf name has = true.

(** A type the walker cannot bind: one without the capability whose kind
    is no supported leaf, pointer, record or supported sequence, or a
    record without the capability one of whose visited fields has such a
    type. *)
Inductive unbindable (implements : reflect.rtype -> bool) (b : Builder)
  : reflect.rtype -> Prop :=
| unbindable_kind rt :
    implements (capability_type rt) = false ->
    reflect.kind rt <> reflect.Ptr ->
    reflect.kind rt <> reflect.Struct ->
    supported_leaf rt = false ->
    supported_sequence rt = false ->
    unbindable implements b rt
| unbindable_field n l1 rf l2 :
    implements (reflect.PtrTo (reflect.TStruct n (l1 ++ rf :: l2)%list)) = false ->
    visited b rf ->
    unbindable implements b (reflect.FType rf) ->
    unbindable implements b (reflect.TStruct n (l1 ++ rf :: l2)%list).

Section OverlaySpec.

Context {E : FlagEngine}.

(** What visiting flag [name] does besides calling the engine. *)
Definition visit_events (b : Builder) (env : os.Environ) (name : string)
  : list Event :=
  let envname := call_EnvNameFunc (config b) name in
  let v := os.Getenv env envname in
  if v =? "" then [Getenv envname] else [Getenv envname; SetFlag name v].



End OverlaySpec.

(** ** The records and builders of the examples *)
Module fixtures.

Definition predeclared (name : string) (k : reflect.Kind) : reflect.rtype :=
  reflect.TScalar {| reflect.PkgPath := ""; reflect.Name := name |} k.

Definition string_type : reflect.rtype := predeclared "string" reflect.String.
Definition uint64_type : reflect.rtype := predeclared "uint64" reflect.Uint64.

Definition Options (fields : list (reflect.StructField reflect.rtype))
  : reflect.rtype :=
  reflect.TStruct {| reflect.PkgPath := "main"; reflect.Name := "Options" |}
    fields.

Definition struct (fields : list (reflect.StructField reflect.rtype))
  : reflect.rtype :=
  reflect.TStruct reflect.unnamed fields.

Definition exported (name : string) (t : reflect.rtype)
  (tag : reflect.StructTag) : reflect.StructField reflect.rtype :=
  {| reflect.FName := name; reflect.FPkgPath := ""; reflect.FType := t;
     reflect.Tag := tag; reflect.Anonymous := false |}.

Definition unexported (name : string) (t : reflect.rtype)
  (tag : reflect.StructTag) : reflect.StructField reflect.rtype :=
  {| reflect.FName := name; reflect.FPkgPath := "main"; reflect.FType := t;
     reflect.Tag := tag; reflect.Anonymous := false |}.

(** A program none of whose types has methods. *)
Definition no_Value (_ : reflect.rtype) : bool := false.
Definition no_HelpText (_ : reflect.rtype) (_ : reflect.value)
  : option (result string) := None.

(** The builder of the tests: the default one with the name and the
    handling mode replaced and environment support switched off, here with
    the flag-name tags [tags]. *)
Definition newBuilder (tags : list string) : Builder :=
  let c := DefaultConfig [] in
  {| Name := "-";
     config := {| HandlingMode := pflag.ContinueOnError;
                  EnvvarSupport := false;
                  EnvPrefix := EnvPrefix c;
                  EnvNameFunc := EnvNameFunc c;
                  FlagnameTags := tags;
                  FlagNameFunc := FlagNameFunc c;
                  ShorthandTag := ShorthandTag c;
                  HelpTextTag := HelpTextTag c |} |}.

(** [&Options{...}]: the interface value [Build] is given. *)
Definition pointer_to (rt : reflect.rtype) (rv : reflect.value)
  : option (reflect.rtype * reflect.value) :=
  Some (reflect.PtrTo rt, reflect.VPtr (Some rv)).

(** [struct { Name string `flag:"a" json:"b"` }] *)
Definition two_tags : reflect.rtype :=
  Options [exported "Name" string_type [("flag", "a"); ("json", "b")]].

(** [struct { Outer struct { Inner struct { Leaf string } } }] *)
Definition nested : reflect.rtype :=
  Options [exported "Outer"
             (struct [exported "Inner"
                        (struct [exported "Leaf" string_type []]) []]) []].

Definition nested_value : reflect.value :=
  reflect.VStruct [reflect.VStruct [reflect.VStruct [reflect.VString ""]]].

(** [struct { Ids []uint64 `flag:"ids"` }] *)
Definition uint64_slice : reflect.rtype :=
  Options [exported "Ids" (reflect.TSlice reflect.unnamed uint64_type)
             [("flag", "ids")]].


(** [struct { name string `flag:"name"` }] *)
Definition tagged_unexported : reflect.rtype :=
  Options [unexported "name" string_type [("flag", "name")]].

(** [struct { Table map[string]int `flag:"table"` }] *)
Definition with_map : reflect.rtype :=
  Options [exported "Table"
             (reflect.TScalar reflect.unnamed reflect.Map) [("flag", "table")]].


(** One with the text flags [name] and [name2], which hold ["foo"], and
    the flag [log-level], which holds [WARN]. *)
Definition three_flags : engine0.state :=
  {| engine0.errorHandling := pflag.ContinueOnError;
     engine0.formal :=
       [{| engine0.flag_name := "name";
           engine0.flag_contents := reflect.VString "foo";
           engine0.flag_set := engine0.stringValue |};
        {| engine0.flag_name := "log-level";
           engine0.flag_contents := reflect.VString "WARN";
           engine0.flag_set := LogLevel.set_field |};
        {| engine0.flag_name := "name2";
           engine0.flag_contents := reflect.VString "foo";
           engine0.flag_set := engine0.stringValue |}] |}.

(** The default builder, of a process without [ENV_PREFIX]. *)
Definition defaultBuilder : Builder := NewBuilder "app" [].

(** The [FlagSet] over the small engine. *)
Definition flagset (s : engine0.state) (b : Builder) : FlagSet engine0.Engine :=
  @Build_FlagSet engine0.Engine s b.

End fixtures.

(** * Properties of the walker *)

Section WalkerFacts.

Variable implements : reflect.rtype -> bool.
Variable HasHelpText : reflect.rtype -> reflect.value -> option (result string).
Variable b : Builder.

Let tags := FlagnameTags (config b).

(** *** Name resolution *)

Lemma flagname_loop_none (tag : reflect.StructTag) (j : nat) acc :
  (forall i k, i < j -> nth_error tags i = Some k ->
               reflect.Lookup tag k = None) ->
  flagname_loop b tag j acc = acc.
Proof.
  induction j as [|j IH]; intros Hnone; simpl; [reflexivity|].
  fold tags.
  destruct (nth_error tags j) as [k|] eqn:Hk.
  - rewrite (Hnone j k) by (auto with arith).
    apply IH. intros i k' Hi. apply Hnone. lia.
  - apply IH. intros i k' Hi. apply Hnone. lia.
Qed.

Lemma flagname_loop_first (tag : reflect.StructTag) (j i : nat) k v acc :
  i < j ->
  nth_error tags i = Some k ->
  reflect.Lookup tag k = Some v ->
  (forall i' k', i' < i -> nth_error tags i' = Some k' ->
                 reflect.Lookup tag k' = None) ->
  flagname_loop b tag j acc = (v, true).
Proof.
  revert acc. induction j as [|j IH]; intros acc Hij Hk Hv Hnone; [lia|].
  simpl. fold tags.
  destruct (Nat.eq_dec i j) as [->|Hne].
  - rewrite Hk, Hv. now apply flagname_loop_none.
  - apply IH; auto. lia.
Qed.


Lemma flagname_loop_split (tag : reflect.StructTag) l1 k l2 v acc :
  tags = (l1 ++ k :: l2)%list ->
  reflect.Lookup tag k = Some v ->
  (forall k', In k' l1 -> reflect.Lookup tag k' = None) ->
  flagname_loop b tag (length tags) acc = (v, true).
Proof.
  intros Htags Hk Hnone.
  apply flagname_loop_first with (i := length l1) (k := k).
  - rewrite Htags, length_app. simpl. lia.
  - rewrite Htags, nth_error_app2, Nat.sub_diag by lia. reflexivity.
  - assumption.
  - intros i' k' Hi' Hk'. apply Hnone.
    rewrite Htags, nth_error_app1 in Hk' by assumption.
    eapply nth_error_In; eauto.
Qed.

(** *** One turn of the loop of [walk] *)

Section Loop.

Variable wf :
  reflect.rtype -> reflect.flag -> reflect.ref -> reflect.value ->
  fieldcontext -> result (list pflag.Call * reflect.value).

Lemma walk_loop_skip rf rest i fl p rv prefix fv name has :
  Field rv i = Some fv ->
  flagname_loop b (reflect.Tag rf) (length tags) (reflect.FName rf, false)
  = (name, has) ->
  dispatched rf name has = false ->
  walk_loop HasHelpText b wf (rf :: rest) i fl p rv prefix
  = walk_loop HasHelpText b wf rest (S i) fl p rv prefix.
Proof.
  intros Hfv Hname Hskip. simpl. rewrite Hfv. fold tags. rewrite Hname.
  unfold dispatched in Hskip.
  destruct (name =? "-"); [reflexivity|].
  simpl in Hskip. destruct has; simpl in *.
  - discriminate.
  - rewrite Hskip. reflexivity.
Qed.

Lemma walk_loop_dispatch rf rest i fl p rv prefix fv name has :
  Field rv i = Some fv ->
  flagname_loop b (reflect.Tag rf) (length tags) (reflect.FName rf, false)
  = (name, has) ->
  dispatched rf name has = true ->
  walk_loop HasHelpText b wf (rf :: rest) i fl p rv prefix
  = (helpText <- field_helpText HasHelpText b fl rf fv
                   (FlagNameFunc (config b) (prefix ++ name)) ;;
     ' (calls, fv') <-
       wf (reflect.FType rf) (reflect.field_flag fl rf)
         (p ++ [reflect.AtField i])%list fv
         {| fieldname := FlagNameFunc (config b) (prefix ++ name);
            helpText := helpText;
            shorthand := field_shorthand b rf prefix;
            prefix := prefix;
            hasFlagname := has;
            field := rf |} ;;
     ' (calls', rv') <-
       walk_loop HasHelpText b wf rest (S i) fl p (SetField rv i fv') prefix ;;
     Ok ((calls ++ calls')%list, rv'))%walk.
Proof.
  intros Hfv Hname Hgo. simpl. rewrite Hfv. fold tags. rewrite Hname.
  unfold dispatched in Hgo.
  apply andb_true_iff in Hgo as [Hdash Hvis].
  apply negb_true_iff in Hdash. rewrite Hdash.
  destruct has; simpl in *.
  - reflexivity.
  - rewrite Hvis. reflexivity.
Qed.

(** A visited field whose dispatch panics makes the whole loop panic:
    either at that field or at one before it. *)
Lemma walk_loop_panics l1 rf l2 :
  (forall fl p fv c, exists why,
      wf (reflect.FType rf) fl p fv c = Panicked why) ->
  (let '(name, has) :=
     flagname_loop b (reflect.Tag rf) (length tags) (reflect.FName rf, false)
   in dispatched rf name has = true) ->
  forall i fl p rv prefix, exists why,
    walk_loop HasHelpText b wf (l1 ++ rf :: l2)%list i fl p rv prefix
    = Panicked why.
Proof.
  intros Hpanic Hgo.
  destruct (flagname_loop b (reflect.Tag rf) (length tags)
              (reflect.FName rf, false)) as [name has] eqn:Hname.
  induction l1 as [|rf1 l1 IH]; intros i fl p rv prefix.
  - destruct (Field rv i) as [fv|] eqn:Hfv.
    + cbn [app].
      rewrite walk_loop_dispatch with (fv := fv) (name := name) (has := has)
        by assumption.
      destruct (field_helpText HasHelpText b fl rf fv _) as [text|why].
      * cbn [bind]. edestruct Hpanic as [why ->]. exists why. reflexivity.
      * exists why. reflexivity.
    + exists ReflectField. simpl. now rewrite Hfv.
  - cbn [app].
    destruct (Field rv i) as [fv|] eqn:Hfv.
    2:{ exists ReflectField. simpl. now rewrite Hfv. }
    destruct (flagname_loop b (reflect.Tag rf1) (length tags)
                (reflect.FName rf1, false)) as [name1 has1] eqn:Hname1.
    destruct (dispatched rf1 name1 has1) eqn:Hgo1.
    + rewrite walk_loop_dispatch with (fv := fv) (name := name1) (has := has1)
        by assumption.
      destruct (field_helpText HasHelpText b fl rf1 fv _) as [text|why].
      2:{ exists why. reflexivity. }
      cbn [bind].
      match goal with |- context [bind ?m _] => destruct m as [[calls fv']|why] end.
      * cbn [bind].
        destruct (IH (S i) fl p (SetField rv i fv') prefix) as [why ->].
        exists why. reflexivity.
      * exists why. reflexivity.
    + rewrite walk_loop_skip with (fv := fv) (name := name1) (has := has1)
        by assumption.
      apply IH.
Qed.

End Loop.

(** *** Reading values out *)


Section CopyOut.

Variables (A : Type) (get : reflect.value -> option A)
          (inj : A -> reflect.value).
Hypothesis get_inj : forall x, get (inj x) = Some x.

Lemma copy_loop_map (xs : list A) n i acc :
  i + n = length xs ->
  copy_loop get (reflect.VSlice (map inj xs)) n i acc
  = Ok (acc ++ skipn i xs)%list.
Proof.
  revert i acc. induction n as [|n IH]; intros i acc Hlen; simpl.
  - rewrite skipn_all2 by lia. now rewrite app_nil_r.
  - destruct (nth_error xs i) as [x|] eqn:Hx.
    + rewrite nth_error_map, Hx. simpl. rewrite get_inj.
      rewrite IH by lia. f_equal.
      rewrite <- app_assoc. simpl. do 2 f_equal.
      clear - Hx. revert i Hx.
      induction xs as [|y xs IHxs]; intros [|i] Hx; simpl in *;
        try discriminate.
      * now injection Hx as ->.
      * now apply IHxs.
    + apply nth_error_None in Hx. lia.
Qed.

Lemma copy_out_map (xs : list A) :
  copy_out get (reflect.VSlice (map inj xs)) = Ok xs.
Proof.
  unfold copy_out. simpl. rewrite length_map.
  now rewrite copy_loop_map by lia.
Qed.

End CopyOut.

(** *** Type dispatch *)

Lemma walkField_leaf rt fv mk fl p c :
  LeafBinding rt fv mk ->
  implements (capability_type rt) = false ->
  walkField implements HasHelpText b rt fl p fv c
  = Ok ([mk p (fieldname c) (shorthand c) (helpText c)], fv).
Proof.
  intros Hb Himpl.
  destruct Hb; unfold capability_type, reflect.rTimeDurationType in *;
    cbn in Himpl |- *; rewrite Himpl;
    try reflexivity.
  cbn in H. rewrite H. reflexivity.
Qed.

Lemma walkField_slice n elem xs mk fl p c :
  SliceBinding elem xs mk ->
  implements (reflect.PtrTo (reflect.TSlice n elem)) = false ->
  walkField implements HasHelpText b (reflect.TSlice n elem) fl p
    (reflect.VSlice xs) c
  = Ok ([mk p (fieldname c) (shorthand c) (helpText c)], reflect.VSlice xs).
Proof.
  intros Hb Himpl. cbn [walkField reflect.kind]. rewrite Himpl.
  destruct Hb as [elem xs Hk|elem xs Hk| xs |elem xs Hk Hd|elem xs Hk
                 |elem xs Hk|elem xs Hk];
    try rewrite Hk; try rewrite Hd; cbn [reflect.kind reflect.rTimeDurationType reflect.is_duration];
    rewrite copy_out_map by reflexivity; reflexivity.
Qed.

(** The record case of [walkField] is the call of [walk] of the source. *)
Lemma walkField_struct n fields fl p fv c :
  implements (reflect.PtrTo (reflect.TStruct n fields)) = false ->
  walkField implements HasHelpText b (reflect.TStruct n fields) fl p fv c
  = walk implements HasHelpText b (reflect.TStruct n fields) fl p fv
      (if reflect.Anonymous (field c) then prefix c
       else prefix c ++ fieldname c ++ ".").
Proof.
  intros Himpl. cbn [walkField walk reflect.kind]. rewrite Himpl.
  now destruct (reflect.Anonymous (field c)).
Qed.


Lemma walkField_unsupported rt fl p fv c :
  implements (capability_type rt) = false ->
  reflect.kind rt <> reflect.Ptr ->
  reflect.kind rt <> reflect.Struct ->
  supported_leaf rt = false ->
  supported_sequence rt = false ->
  walkField implements HasHelpText b rt fl p fv c
    = Panicked (UnsupportedType rt)
  \/ walkField implements HasHelpText b rt fl p fv c
    = Panicked (UnsupportedSliceType rt).
Proof.
  intros Himpl Hptr Hstruct Hleaf Hseq. unfold capability_type in Himpl.
  destruct rt as [n k|n elem|n elem|n fields]; cbn in Hptr, Hstruct.
  - left. unfold supported_leaf in Hleaf. cbn in Hleaf, Himpl.
    destruct k; try discriminate; try congruence;
      cbn [walkField reflect.kind]; rewrite Himpl; reflexivity.
  - congruence.
  - right. cbn in Hseq, Himpl. cbn [walkField reflect.kind]. rewrite Himpl.
    destruct (reflect.kind elem); try discriminate; reflexivity.
  - congruence.
Qed.

End WalkerFacts.

(** ** Runs of [Build]

    The records of the repository's tests, and a few more. *)

(** [types--string]: [struct { Name string `flag:"name"` }] *)
Example Build_string :
  Build fixtures.no_Value fixtures.no_HelpText (fixtures.newBuilder ["flag"])
    (fixtures.pointer_to
       (fixtures.Options [fixtures.exported "Name" fixtures.string_type
                            [("flag", "name")]])
       (reflect.VStruct [reflect.VString ""]))
  = Ok {| built_name := "-";
          built_mode := pflag.ContinueOnError;
          built_calls := [pflag.StringVarP [reflect.AtField 0] "name" "" "" "-"];
          built_record := reflect.VStruct [reflect.VString ""] |}.
Proof. reflexivity. Qed.

(** [skip--unexported]: [struct { name string }] gets no flag. *)
Example Build_unexported :
  Build fixtures.no_Value fixtures.no_HelpText (fixtures.newBuilder ["flag"])
    (fixtures.pointer_to
       (fixtures.Options [fixtures.unexported "name" fixtures.string_type []])
       (reflect.VStruct [reflect.VString ""]))
  = Ok {| built_name := "-";
          built_mode := pflag.ContinueOnError;
          built_calls := [];
          built_record := reflect.VStruct [reflect.VString ""] |}.
Proof. reflexivity. Qed.

(** [lookup--tag--json,omitempty]:
    [struct { Verbose bool `json:"verbose,omitempty"` }] with the tag [json]
    configured. *)
Example Build_json_omitempty :
  Build fixtures.no_Value fixtures.no_HelpText (fixtures.newBuilder ["json"])
    (fixtures.pointer_to
       (fixtures.Options [fixtures.exported "Verbose"
                            (fixtures.predeclared "bool" reflect.Bool)
                            [("json", "verbose,omitempty")]])
       (reflect.VStruct [reflect.VBool false]))
  = Ok {| built_name := "-";
          built_mode := pflag.ContinueOnError;
          built_calls := [pflag.BoolVarP [reflect.AtField 0] "verbose" "" false "-"];
          built_record := reflect.VStruct [reflect.VBool false] |}.
Proof. reflexivity. Qed.

(** [customize--enum]: a [LogLevel] and a pointer to one, both tagged. *)
Example Build_enum :
  Build LogLevel.implements LogLevel.HasHelpText (fixtures.newBuilder ["flag"])
    (fixtures.pointer_to
       (fixtures.Options
          [fixtures.exported "LogLevel" LogLevel.type [("flag", "log-level")];
           fixtures.exported "LogLevelPointer" (reflect.PtrTo LogLevel.type)
             [("flag", "log-level-pointer")]])
       (reflect.VStruct [reflect.VString "WARN";
                         reflect.VPtr (Some (reflect.VString "WARN"))]))
  = Ok {| built_name := "-";
          built_mode := pflag.ContinueOnError;
          built_calls :=
            [pflag.VarP (Some [reflect.AtField 0]) "log-level" ""
               LogLevel.HelpText;
             pflag.VarP (Some [reflect.AtField 1; reflect.Deref])
               "log-level-pointer" "" LogLevel.HelpText];
          built_record :=
            reflect.VStruct [reflect.VString "WARN";
                             reflect.VPtr (Some (reflect.VString "WARN"))] |}.
Proof. reflexivity. Qed.

(** One named record, and an embedded one: [Outer.Leaf] and [Leaf]. *)
Example Build_nested_once :
  exists built,
    Build fixtures.no_Value fixtures.no_HelpText (fixtures.newBuilder ["flag"])
      (fixtures.pointer_to
         (fixtures.Options
            [fixtures.exported "Outer"
               (fixtures.struct [fixtures.exported "Leaf" fixtures.string_type []])
               [];
             {| reflect.FName := "Base"; reflect.FPkgPath := "";
                reflect.FType :=
                  fixtures.struct [fixtures.exported "Leaf" fixtures.string_type []];
                reflect.Tag := []; reflect.Anonymous := true |}])
         (reflect.VStruct [reflect.VStruct [reflect.VString ""];
                           reflect.VStruct [reflect.VString ""]]))
    = Ok built
    /\ map pflag.call_name (built_calls built) = ["Outer.Leaf"; "Leaf"].
Proof. eexists. split; reflexivity. Qed.

(** A tagged nil pointer is allocated and its pointee bound; an untagged
    one is skipped and stays nil. *)
Example Build_nil_pointers :
  Build fixtures.no_Value fixtures.no_HelpText (fixtures.newBuilder ["flag"])
    (fixtures.pointer_to
       (fixtures.Options
          [fixtures.exported "Name" (reflect.PtrTo fixtures.string_type)
             [("flag", "name")];
           fixtures.exported "Other" (reflect.PtrTo fixtures.string_type) []])
       (reflect.VStruct [reflect.VPtr None; reflect.VPtr None]))
  = Ok {| built_name := "-";
          built_mode := pflag.ContinueOnError;
          built_calls :=
            [pflag.StringVarP [reflect.AtField 0; reflect.Deref] "name" "" "" "-"];
          built_record :=
            reflect.VStruct [reflect.VPtr (Some (reflect.VString ""));
                             reflect.VPtr None] |}.
Proof. reflexivity. Qed.

(** What [reflect] refuses for a value obtained through an unexported
    field: to set it, and to pass it to a call. *)
Example Build_unexported_nil_pointer :
  Build fixtures.no_Value fixtures.no_HelpText (fixtures.newBuilder ["flag"])
    (fixtures.pointer_to
       (fixtures.Options
          [fixtures.unexported "name" (reflect.PtrTo fixtures.string_type)
             [("flag", "name")]])
       (reflect.VStruct [reflect.VPtr None]))
  = Panicked ReflectSetRO.
Proof. reflexivity. Qed.

Example Build_unexported_custom_value :
  Build LogLevel.implements LogLevel.HasHelpText (fixtures.newBuilder ["flag"])
    (fixtures.pointer_to
       (fixtures.Options
          [fixtures.unexported "level" LogLevel.type [("flag", "level")]])
       (reflect.VStruct [reflect.VString "WARN"]))
  = Panicked ReflectCallRO.
Proof. reflexivity. Qed.

(** The default environment-variable name and flag-name functions. *)
Example default_EnvNameFunc_example :
  default_EnvNameFunc "APP_" "log-level.max" = "APP_LOG_LEVEL_MAX".
Proof. reflexivity. Qed.

Example default_FlagNameFunc_example :
  default_FlagNameFunc "verbose ,omitempty" = "verbose".
Proof. reflexivity. Qed.

(** * The claims about [Build] *)

(** C2, as the specification has it, fails: with the tags [flag] and
    [json] configured in that order, a field tagged [flag:"a" json:"b"] is
    named [a], the value of the earlier tag. *)
Lemma later_tag_wins_fails : ~ later_tag_wins (fixtures.newBuilder ["flag"; "json"]).
Proof.
  intros H.
  specialize (H [("flag", "a"); ("json", "b")] "Name" ["flag"] "json" [] "b"
                eq_refl eq_refl (fun k' (Hin : In k' []) => match Hin with end)).
  vm_compute in H. discriminate H.
Qed.

(** C2, amended: for a field that carries configured flag-name tags, the
    name resolved is the value of the tag that comes first in the
    configured list (the list is gone through from its last entry to its
    first, each tag found overwriting the name); and unless that value is
    [-], [walk] dispatches the field under the external name
    [FlagNameFunc (prefix ++ value)], marked as explicitly named. *)
Theorem earlier_tag_wins
  (implements : reflect.rtype -> bool)
  (HasHelpText : reflect.rtype -> reflect.value -> option (result string))
  (b : Builder) (rf : reflect.StructField reflect.rtype)
  (l1 : list string) (k : string) (l2 : list string) (v : string) :
  FlagnameTags (config b) = (l1 ++ k :: l2)%list ->
  reflect.Lookup (reflect.Tag rf) k = Some v ->
  (forall k', In k' l1 -> reflect.Lookup (reflect.Tag rf) k' = None) ->
  flagname_loop b (reflect.Tag rf) (length (FlagnameTags (config b)))
    (reflect.FName rf, false) = (v, true)
  /\ (v <> "-" ->
      forall rest i fl p rv prefix fv,
        Field rv i = Some fv ->
        walk_loop HasHelpText b (walkField implements HasHelpText b)
          (rf :: rest) i fl p rv prefix
        = (helpText <- field_helpText HasHelpText b fl rf fv
                         (FlagNameFunc (config b) (prefix ++ v)) ;;
           ' (calls, fv') <-
             walkField implements HasHelpText b
               (reflect.FType rf) (reflect.field_flag fl rf)
               (p ++ [reflect.AtField i])%list fv
               {| fieldname := FlagNameFunc (config b) (prefix ++ v);
                  helpText := helpText;
                  shorthand := field_shorthand b rf prefix;
                  prefix := prefix;
                  hasFlagname := true;
                  field := rf |} ;;
           ' (calls', rv') <-
             walk_loop HasHelpText b (walkField implements HasHelpText b)
               rest (S i) fl p (SetField rv i fv') prefix ;;
           Ok ((calls ++ calls')%list, rv'))%walk).
Proof.
  intros Htags Hk Hnone.
  assert (Hname : flagname_loop b (reflect.Tag rf)
                    (length (FlagnameTags (config b)))
                    (reflect.FName rf, false) = (v, true)).
  { now apply flagname_loop_split with (l1 := l1) (k := k) (l2 := l2). }
  split; [exact Hname|].
  intros Hdash rest i fl p rv prefix fv Hfv.
  apply walk_loop_dispatch with (1 := Hfv) (2 := Hname).
  unfold dispatched. apply String.eqb_neq in Hdash. now rewrite Hdash.
Qed.

Lemma earlier_tag_wins_witness :
  flagname_loop (fixtures.newBuilder ["flag"; "json"])
    [("flag", "a"); ("json", "b")] 2 ("Name", false) = ("a", true).
Proof.
  refine (proj1 (earlier_tag_wins fixtures.no_Value fixtures.no_HelpText
                   (fixtures.newBuilder ["flag"; "json"])
                   (fixtures.exported "Name" fixtures.string_type
                      [("flag", "a"); ("json", "b")])
                   [] "flag" ["json"] (v := "a") _ _ _)).
  - reflexivity.
  - reflexivity.
  - intros k' [].
Defined.

(** C3: under two named records the flag name repeats the outer name.
    For [struct { Outer struct { Inner struct { Leaf string } } }] the one
    flag [Build] registers is [Outer.Outer.Inner.Leaf], where the claim has
    [Outer.Inner.Leaf]: the prefix handed down is the current prefix
    followed by a field name that already starts with that prefix. *)
Theorem nested_prefix_repeated :
  exists built,
    Build fixtures.no_Value fixtures.no_HelpText (fixtures.newBuilder ["flag"])
      (fixtures.pointer_to fixtures.nested fixtures.nested_value) = Ok built
    /\ map pflag.call_name (built_calls built) = ["Outer.Outer.Inner.Leaf"]
    /\ map pflag.call_name (built_calls built) <> ["Outer.Inner.Leaf"].
Proof.
  eexists. split; [vm_compute; reflexivity|]. split; [reflexivity|discriminate].
Qed.

(** C5, as the specification has it, fails: [Build] rejects a record with
    a field [Ids []uint64]. *)
Lemma uint64_slice_rejected :
  Build fixtures.no_Value fixtures.no_HelpText (fixtures.newBuilder ["flag"])
    (fixtures.pointer_to fixtures.uint64_slice
       (reflect.VStruct [reflect.VSlice [reflect.VUint 1; reflect.VUint 2]]))
  = Panicked (UnsupportedSliceType
                (reflect.TSlice reflect.unnamed fixtures.uint64_type)).
Proof. vm_compute. reflexivity. Qed.

(** C5, amended: for a sequence field without the custom-value capability
    whose element kind is boolean, 64-bit float, 64-bit signed integer
    (duration apart), machine-width signed integer, text or machine-width
    unsigned integer, the type dispatcher makes the matching sequence
    registration on the field's storage, with the field's elements, in
    order, as the default; a sequence of 64-bit unsigned integers is
    rejected with the panic for an unsupported slice type. *)
Theorem sequence_default_copied
  (implements : reflect.rtype -> bool)
  (HasHelpText : reflect.rtype -> reflect.value -> option (result string))
  (b : Builder) (n : reflect.TypeName) (elem : reflect.rtype)
  (fl : reflect.flag) (p : reflect.ref) (c : fieldcontext) :
  implements (reflect.PtrTo (reflect.TSlice n elem)) = false ->
  (forall xs mk,
      SliceBinding elem xs mk ->
      walkField implements HasHelpText b (reflect.TSlice n elem) fl p
        (reflect.VSlice xs) c
      = Ok ([mk p (fieldname c) (shorthand c) (helpText c)], reflect.VSlice xs))
  /\ (reflect.kind elem = reflect.Uint64 ->
      forall fv,
        walkField implements HasHelpText b (reflect.TSlice n elem) fl p fv c
        = Panicked (UnsupportedSliceType (reflect.TSlice n elem))).
Proof.
  intros Himpl. split.
  - intros xs mk Hb. now apply walkField_slice.
  - intros Hk fv. cbn [walkField reflect.kind]. rewrite Himpl, Hk. reflexivity.
Qed.

Lemma sequence_default_copied_witness :
  walkField fixtures.no_Value fixtures.no_HelpText (fixtures.newBuilder ["flag"])
    (reflect.TSlice reflect.unnamed (fixtures.predeclared "int" reflect.Int))
    reflect.flag0 [reflect.AtField 0]
    (reflect.VSlice (map reflect.VInt [20; 30]%Z))
    {| fieldname := "nums"; helpText := "-"; shorthand := "n"; prefix := "";
       hasFlagname := true;
       field := fixtures.exported "Nums"
                  (reflect.TSlice reflect.unnamed
                     (fixtures.predeclared "int" reflect.Int))
                  [("flag", "nums"); ("short", "n")] |}
  = Ok ([pflag.IntSliceVarP [reflect.AtField 0] "nums" "n" [20; 30]%Z "-"],
        reflect.VSlice (map reflect.VInt [20; 30]%Z)).
Proof.
  refine (proj1 (sequence_default_copied fixtures.no_Value fixtures.no_HelpText
                   (fixtures.newBuilder ["flag"]) reflect.unnamed _ _ _ _ _)
            _ _ (bind_ints _ _ _)).
  - reflexivity.
  - reflexivity.
Defined.

(** C7: a visited field whose type has no custom-value capability and
    whose kind is no supported leaf, pointer, record or supported sequence
    makes the type dispatcher panic, with the panic for an unsupported
    type or for an unsupported slice type; the same holds for a record one
    of whose visited fields, at any depth, has such a type; and [Build] on
    a record with such a visited field panics, so it hands back no flag set
    for [Parse] to run on. *)
Theorem unsupported_field_panics
  (implements : reflect.rtype -> bool)
  (HasHelpText : reflect.rtype -> reflect.value -> option (result string))
  (b : Builder) :
  (forall rt fl p fv c,
      implements (capability_type rt) = false ->
      reflect.kind rt <> reflect.Ptr ->
      reflect.kind rt <> reflect.Struct ->
      supported_leaf rt = false ->
      supported_sequence rt = false ->
      walkField implements HasHelpText b rt fl p fv c
        = Panicked (UnsupportedType rt)
      \/ walkField implements HasHelpText b rt fl p fv c
        = Panicked (UnsupportedSliceType rt))
  /\ (forall rt, unbindable implements b rt ->
        forall fl p fv c, exists why,
          walkField implements HasHelpText b rt fl p fv c = Panicked why)
  /\ (forall pn n l1 rf l2 rv,
        visited b rf ->
        unbindable implements b (reflect.FType rf) ->
        exists why,
          Build implements HasHelpText b
            (Some (reflect.TPtr pn (reflect.TStruct n (l1 ++ rf :: l2)%list), rv))
          = Panicked why).
Proof.
  assert (Hdeep : forall rt, unbindable implements b rt ->
            forall fl p fv c, exists why,
              walkField implements HasHelpText b rt fl p fv c = Panicked why).
  { induction 1 as [rt Himpl Hp Hs Hl Hq|n l1 rf l2 Himpl Hvis Hun IH];
      intros fl p fv c.
    - destruct (@walkField_unsupported implements HasHelpText b rt fl p fv c
                  Himpl Hp Hs Hl Hq) as [->| ->]; eauto.
    - cbn [walkField reflect.kind]. rewrite Himpl.
      destruct (reflect.Anonymous (field c));
        apply walk_loop_panics; assumption. }
  split; [|split].
  - intros. now apply walkField_unsupported.
  - exact Hdeep.
  - intros pn n l1 rf l2 rv Hvis Hun. cbn [Build walk].
    edestruct (@walk_loop_panics HasHelpText b (walkField implements HasHelpText b)
                 l1 rf l2 (Hdeep _ Hun) Hvis) as [why ->].
    exists why. reflexivity.
Qed.

Lemma unsupported_field_panics_witness :
  exists why,
    Build fixtures.no_Value fixtures.no_HelpText (fixtures.newBuilder ["flag"])
      (fixtures.pointer_to fixtures.with_map (reflect.VStruct [reflect.VOpaque]))
    = Panicked why.
Proof.
  refine (proj2 (proj2 (unsupported_field_panics fixtures.no_Value
                          fixtures.no_HelpText (fixtures.newBuilder ["flag"])))
            reflect.unnamed _ [] _ [] _ _ _).
  - reflexivity.
  - apply unbindable_kind; try reflexivity; discriminate.
Defined.






(** * Properties of [Parse] *)

Section OverlayFacts.

Context {E : FlagEngine}.
Variables (b : Builder) (env : os.Environ).

Lemma overlay_events names st :
  events (fold_left (visit b env) names st)
  = (events st ++ flat_map (visit_events b env) names)%list.
Proof.
  revert st. induction names as [|name names IH]; intros st; simpl.
  - now rewrite app_nil_r.
  - rewrite IH. unfold visit, visit_events.
    destruct (os.Getenv env (call_EnvNameFunc (config b) name) =? "").
    + simpl. now rewrite <- app_assoc.
    + destruct (engine_Set name _ (flags st)) as [err s]. simpl.
      now rewrite <- app_assoc.
Qed.



(** A [SetFlag] event names a visited flag and the value of its variable,
    which is not empty. *)
Lemma SetFlag_visited names name x :
  In (SetFlag name x) (flat_map (visit_events b env) names) ->
  In name names
  /\ x = os.Getenv env (call_EnvNameFunc (config b) name) /\ x <> "".
Proof.
  rewrite in_flat_map. intros [n [Hn Hin]]. unfold visit_events in Hin.
  destruct (os.Getenv env (call_EnvNameFunc (config b) n) =? "") eqn:Hv.
  - destruct Hin as [Hin|[]]. discriminate Hin.
  - destruct Hin as [Hin|[Hin|[]]]; [discriminate Hin|].
    injection Hin as Hn1 Hx. subst n. apply String.eqb_neq in Hv.
    rewrite Hx in Hv. auto.
Qed.

Section Contract.

Context {C : EngineContract E}.

(** Visiting other flags, or this one while its variable is empty, leaves
    the storage of flag [name] alone. *)
Lemma overlay_frame names name st :
  (In name names ->
   os.Getenv env (call_EnvNameFunc (config b) name) = "") ->
  contents (flags (fold_left (visit b env) names st)) name
  = contents (flags st) name.
Proof.
  revert st. induction names as [|n names IH]; intros st Hname; simpl.
  - reflexivity.
  - rewrite IH by (intros Hin; apply Hname; now right).
    unfold visit.
    destruct (os.Getenv env (call_EnvNameFunc (config b) n) =? "") eqn:Hv.
    + reflexivity.
    + destruct (engine_Set n _ (flags st)) as [err s] eqn:Hset. simpl.
      apply Set_frame with (1 := Hset). intros ->.
      rewrite Hname in Hv by now left. discriminate Hv.
Qed.


End Contract.

End OverlayFacts.

(** ** The small engine keeps the contract *)

Lemma lookup_store_other l name x other :
  other <> name ->
  engine0.lookup (engine0.store l name x) other = engine0.lookup l other.
Proof.
  intros Hne. induction l as [|f l IH]; simpl; [reflexivity|].
  destruct (engine0.flag_name f =? name) eqn:Hf; simpl.
  - apply String.eqb_eq in Hf. rewrite Hf.
    destruct (name =? other) eqn:Hno; [|reflexivity].
    apply String.eqb_eq in Hno. congruence.
  - now rewrite IH.
Qed.

Lemma engine0_Set_frame s name v r s' other :
  engine0.Set_ name v s = (r, s') -> other <> name ->
  engine0.contents_ s' other = engine0.contents_ s other.
Proof.
  unfold engine0.Set_, engine0.contents_. intros Hset Hne.
  destruct (engine0.lookup (engine0.formal s) name) as [f|].
  - destruct (engine0.flag_set f v (engine0.flag_contents f)) as [x [err|]];
      injection Hset as _ <-; simpl; now rewrite lookup_store_other.
  - now injection Hset as _ <-.
Qed.

Lemma engine0_parseArgs_frame args name : forall s r s',
  engine0.parseArgs args s = (r, s') ->
  engine0.mentions_ s args name = false ->
  engine0.contents_ s' name = engine0.contents_ s name.
Proof.
  induction args as [|a args IH]; intros s r s' Hparse Hno; simpl in *.
  - now injection Hparse as _ <-.
  - apply orb_false_iff in Hno as [Ha Hrest].
    destruct (engine0.long_option a) as [[n value]|].
    + destruct (engine0.lookup (engine0.formal s) n) as [f|] eqn:Hf.
      * destruct value as [v|].
        -- destruct (engine0.Set_ n v s) as [[err|] s1] eqn:Hset.
           ++ injection Hparse as _ <-.
              apply engine0_Set_frame with (1 := Hset).
              intros ->. now rewrite String.eqb_refl in Ha.
           ++ rewrite (IH _ _ _ Hparse Hrest).
              apply engine0_Set_frame with (1 := Hset).
              intros ->. now rewrite String.eqb_refl in Ha.
        -- now injection Hparse as _ <-.
      * now injection Hparse as _ <-.
    + now apply IH with (r := r).
Qed.

Lemma engine0_Parse_frame s args o s' name :
  engine0.Parse_ args s = (o, s') ->
  engine0.mentions_ s args name = false ->
  engine0.contents_ s' name = engine0.contents_ s name.
Proof.
  unfold engine0.Parse_. intros Hparse Hno.
  destruct (engine0.parseArgs args s) as [[err|] s1] eqn:Hargs.
  - pose proof (engine0_parseArgs_frame _ _ _ Hargs Hno) as Hs.
    destruct (engine0.errorHandling s); injection Hparse as _ <-; exact Hs.
  - injection Hparse as _ <-.
    now apply engine0_parseArgs_frame with (1 := Hargs).
Qed.

#[export] Instance engine0_contract : EngineContract engine0.Engine :=
  @Build_EngineContract engine0.Engine engine0.contents_ engine0.mentions_
    engine0_Set_frame engine0_Parse_frame
    (fun s => NoDup_nodup string_dec _).

(** * The claims about [Parse] *)









(** C8: a field of a supported leaf type without the custom-value
    capability is registered with its current value as the flag's default;
    and after a [Parse] none of whose arguments is an occurrence of that
    flag, while the environment variable derived from the flag's name is
    absent or empty, the storage bound to the flag holds what it held
    before. *)
Theorem leaf_default_retained
  {E : FlagEngine} {C : EngineContract E}
  (implements : reflect.rtype -> bool)
  (HasHelpText : reflect.rtype -> reflect.value -> option (result string))
  (fs : FlagSet E) (rt : reflect.rtype) (fv : reflect.value)
  (mk : reflect.ref -> string -> string -> string -> pflag.Call)
  (fl : reflect.flag) (p : reflect.ref) (c : fieldcontext)
  (args : list string) (env : os.Environ) :
  LeafBinding rt fv mk ->
  implements (capability_type rt) = false ->
  mentions (FlagSet_flags fs) args (fieldname c) = false ->
  os.Getenv env (call_EnvNameFunc (config (builder fs)) (fieldname c)) = "" ->
  walkField implements HasHelpText (builder fs) rt fl p fv c
  = Ok ([mk p (fieldname c) (shorthand c) (helpText c)], fv)
  /\ contents (after (Parse fs args env)) (fieldname c)
     = contents (FlagSet_flags fs) (fieldname c).
Proof.
  intros Hleaf Himpl Hargs Henv. split.
  - now apply walkField_leaf.
  - unfold Parse.
    destruct (engine_Parse args (FlagSet_flags fs)) as [[|err|] s] eqn:Hparse;
      try (cbn [after]; now apply Parse_frame with (1 := Hparse)).
    destruct (EnvvarSupport (config (builder fs))); cbn [after].
    + rewrite overlay_frame by (intros _; exact Henv). cbn [flags].
      now apply Parse_frame with (1 := Hparse).
    + now apply Parse_frame with (1 := Hparse).
Qed.

Lemma leaf_default_retained_witness :
  engine0.contents_
    (after (Parse (fixtures.flagset fixtures.three_flags fixtures.defaultBuilder)
              ["--name2=bar"] [("NAME2", "baz")])) "name"
  = Some (reflect.VString "foo").
Proof.
  refine (proj2 (@leaf_default_retained engine0.Engine engine0_contract
                   fixtures.no_Value fixtures.no_HelpText
                   (fixtures.flagset fixtures.three_flags fixtures.defaultBuilder)
                   fixtures.string_type (reflect.VString "foo") _
                   reflect.flag0 [reflect.AtField 0]
                   {| fieldname := "name"; helpText := "-"; shorthand := "";
                      prefix := ""; hasFlagname := true;
                      field := fixtures.exported "Name" fixtures.string_type
                                 [("flag", "name")] |}
                   ["--name2=bar"] [("NAME2", "baz")]
                   (bind_string _ "foo") _ _ _)).
  - reflexivity.
  - reflexivity.
  - reflexivity.
Defined.

(** * More of the code

    What the walker, [Parse], [DefaultConfig] and the [LogLevel] of the
    tests guarantee beyond the claims above. *)

(** ** Further definitions *)

(** The shorthand and the usage text a call registers. *)
Definition call_shorthand (c : pflag.Call) : string :=
  match c with
  | pflag.BoolVarP _ _ s _ _ | pflag.Float64VarP _ _ s _ _
  | pflag.DurationVarP _ _ s _ _ | pflag.Int64VarP _ _ s _ _
  | pflag.IntVarP _ _ s _ _ | pflag.StringVarP _ _ s _ _
  | pflag.Uint64VarP _ _ s _ _ | pflag.UintVarP _ _ s _ _
  | pflag.BoolSliceVarP _ _ s _ _ | pflag.Float64SliceVarP _ _ s _ _
  | pflag.DurationSliceVarP _ _ s _ _ | pflag.Int64SliceVarP _ _ s _ _
  | pflag.IntSliceVarP _ _ s _ _ | pflag.StringSliceVarP _ _ s _ _
  | pflag.UintSliceVarP _ _ s _ _ => s
  | pflag.VarP _ _ s _ => s
  end.

Definition call_usage (c : pflag.Call) : string :=
  match c with
  | pflag.BoolVarP _ _ _ _ u | pflag.Float64VarP _ _ _ _ u
  | pflag.DurationVarP _ _ _ _ u | pflag.Int64VarP _ _ _ _ u
  | pflag.IntVarP _ _ _ _ u | pflag.StringVarP _ _ _ _ u
  | pflag.Uint64VarP _ _ _ _ u | pflag.UintVarP _ _ _ _ u
  | pflag.BoolSliceVarP _ _ _ _ u | pflag.Float64SliceVarP _ _ _ _ u
  | pflag.DurationSliceVarP _ _ _ _ u | pflag.Int64SliceVarP _ _ _ _ u
  | pflag.IntSliceVarP _ _ _ _ u | pflag.StringSliceVarP _ _ _ _ u
  | pflag.UintSliceVarP _ _ _ _ u => u
  | pflag.VarP _ _ _ u => u
  end.

(** The default value a call passes, as the contents the bound storage
    must have for the two to agree; a custom value passes none. *)
Definition call_default (c : pflag.Call) : option reflect.value :=
  match c with
  | pflag.BoolVarP _ _ _ x _ => Some (reflect.VBool x)
  | pflag.Float64VarP _ _ _ x _ => Some (reflect.VFloat x)
  | pflag.DurationVarP _ _ _ x _ | pflag.Int64VarP _ _ _ x _
  | pflag.IntVarP _ _ _ x _ => Some (reflect.VInt x)
  | pflag.StringVarP _ _ _ x _ => Some (reflect.VString x)
  | pflag.Uint64VarP _ _ _ x _ | pflag.UintVarP _ _ _ x _ =>
      Some (reflect.VUint x)
  | pflag.BoolSliceVarP _ _ _ xs _ =>
      Some (reflect.VSlice (map reflect.VBool xs))
  | pflag.Float64SliceVarP _ _ _ xs _ =>
      Some (reflect.VSlice (map reflect.VFloat xs))
  | pflag.DurationSliceVarP _ _ _ xs _ | pflag.Int64SliceVarP _ _ _ xs _
  | pflag.IntSliceVarP _ _ _ xs _ =>
      Some (reflect.VSlice (map reflect.VInt xs))
  | pflag.StringSliceVarP _ _ _ xs _ =>
      Some (reflect.VSlice (map reflect.VString xs))
  | pflag.UintSliceVarP _ _ _ xs _ =>
      Some (reflect.VSlice (map reflect.VUint xs))
  | pflag.VarP _ _ _ _ => None
  end.

(** What a storage location of a record holds. *)
Fixpoint load (rv : reflect.value) (p : reflect.ref) : option reflect.value :=
  match p with
  | [] => Some rv
  | reflect.AtField i :: q =>
      match Field rv i with
      | Some fv => load fv q
      | None => None
      end
  | reflect.Deref :: q =>
      match rv with
      | reflect.VPtr (Some x) => load x q
      | _ => None
      end
  end.

(** Induction on types, through the fields of records. *)
Section rtype_induction.

Variable P : reflect.rtype -> Prop.
Hypothesis P_scalar : forall n k, P (reflect.TScalar n k).
Hypothesis P_ptr : forall n elem, P elem -> P (reflect.TPtr n elem).
Hypothesis P_slice : forall n elem, P elem -> P (reflect.TSlice n elem).
Hypothesis P_struct : forall n fields,
  Forall (fun rf => P (reflect.FType rf)) fields ->
  P (reflect.TStruct n fields).

Fixpoint rtype_fields_ind (rt : reflect.rtype) : P rt :=
  match rt with
  | reflect.TScalar n k => P_scalar n k
  | reflect.TPtr n elem => P_ptr n (rtype_fields_ind elem)
  | reflect.TSlice n elem => P_slice n (rtype_fields_ind elem)
  | reflect.TStruct n fields =>
      P_struct n
        ((fix go (l : list (reflect.StructField reflect.rtype))
            : Forall (fun rf => P (reflect.FType rf)) l :=
            match l with
            | [] => Forall_nil _
            | rf :: l' =>
                Forall_cons rf (rtype_fields_ind (reflect.FType rf)) (go l')
            end) fields)
  end.

End rtype_induction.

(** The calls [walk] makes for the fields of a record walked under the
    name prefix [prefix]: a call made for a dispatched field carries the
    name, the shorthand and the help text [walk] worked out for that field,
    and the calls made inside a record the field holds are those of a walk
    under the prefix handed down. *)
Inductive Issued
  (HasHelpText : reflect.rtype -> reflect.value -> option (result string))
  (b : Builder) : string -> pflag.Call -> Prop :=
| issued_field prefix rf fl fv name has usage call :
    flagname_loop b (reflect.Tag rf) (length (FlagnameTags (config b)))
      (reflect.FName rf, false) = (name, has) ->
    dispatched rf name has = true ->
    field_helpText HasHelpText b fl rf fv
      (FlagNameFunc (config b) (prefix ++ name)) = Ok usage ->
    pflag.call_name call = FlagNameFunc (config b) (prefix ++ name) ->
    call_shorthand call = field_shorthand b rf prefix ->
    call_usage call = usage ->
    Issued HasHelpText b prefix call
| issued_nested prefix rf name has call :
    flagname_loop b (reflect.Tag rf) (length (FlagnameTags (config b)))
      (reflect.FName rf, false) = (name, has) ->
    dispatched rf name has = true ->
    Issued HasHelpText b
      (if reflect.Anonymous rf then prefix
       else prefix ++ FlagNameFunc (config b) (prefix ++ name) ++ ".") call ->
    Issued HasHelpText b prefix call.

(** Whether every byte of a string passes a test. *)
Fixpoint all_bytes (f : ascii -> bool) (s : string) : bool :=
  match s with
  | EmptyString => true
  | String c s' => f c && all_bytes f s'
  end.

(** What the default environment-name function makes of one byte. *)
Definition env_byte (c : ascii) : ascii :=
  let u := strings.upper_byte c in
  let d := if Ascii.eqb u "-" then "_"%char else u in
  if Ascii.eqb d "." then "_"%char else d.

(** A text all of whose bytes are ASCII: on such texts the byte-wise
    [strings] functions above are those of Go. *)
Definition ascii_only (s : string) : Prop :=
  all_bytes (fun c => (nat_of_ascii c <? 128)%nat) s = true.



(** The storage a call binds exists in the record below [p], and holds
    the default the call passes. *)
Definition bound_in (p : reflect.ref) (rv : reflect.value) (call : pflag.Call)
  : Prop :=
  forall t, pflag.call_target call = Some t ->
    exists q v,
      t = (p ++ q)%list /\ load rv q = Some v
      /\ forall d, call_default call = Some d -> v = d.

(** ** Where the calls of the walker come from *)

Section WalkerAnatomy.

Variable implements : reflect.rtype -> bool.
Variable HasHelpText : reflect.rtype -> reflect.value -> option (result string).
Variable b : Builder.

(** A call [walkField] makes under the context [c]: one with the name,
    shorthand and help text of [c], or one of the walk of a record inside. *)
Definition from_context (c : fieldcontext) (call : pflag.Call) : Prop :=
  (pflag.call_name call = fieldname c
   /\ call_shorthand call = shorthand c
   /\ call_usage call = helpText c)
  \/ Issued HasHelpText b
       (if reflect.Anonymous (field c) then prefix c
        else prefix c ++ fieldname c ++ ".") call.

Ltac one_call H :=
  unfold bind, read in H;
  repeat match type of H with
         | context [match ?x with _ => _ end] => destruct x; try discriminate H
         end;
  injection H as <- <-; repeat constructor; left; cbn; auto.

Lemma walk_loop_issued fields :
  Forall (fun rf => forall fl p fv c calls fv',
              walkField implements HasHelpText b (reflect.FType rf) fl p fv c
              = Ok (calls, fv') ->
              Forall (from_context c) calls) fields ->
  forall i fl p rv prefix calls rv',
    walk_loop HasHelpText b (walkField implements HasHelpText b)
      fields i fl p rv prefix = Ok (calls, rv') ->
    Forall (Issued HasHelpText b prefix) calls.
Proof.
  induction 1 as [|rf rest Hrf _ IH]; intros i fl p rv prefix calls rv' Hwalk.
  - injection Hwalk as <- _. constructor.
  - destruct (Field rv i) as [fv|] eqn:Hfv.
    2:{ simpl in Hwalk. rewrite Hfv in Hwalk. discriminate Hwalk. }
    destruct (flagname_loop b (reflect.Tag rf)
                (length (FlagnameTags (config b)))
                (reflect.FName rf, false)) as [name has] eqn:Hname.
    destruct (dispatched rf name has) eqn:Hgo.
    + rewrite walk_loop_dispatch with (fv := fv) (name := name) (has := has)
        in Hwalk by assumption.
      destruct (field_helpText HasHelpText b fl rf fv
                  (FlagNameFunc (config b) (prefix ++ name)))
        as [usage|] eqn:Husage; [|discriminate Hwalk].
      cbn [bind] in Hwalk.
      match type of Hwalk with
      | context [walkField _ _ _ ?rt ?fl' ?p' ?fv0 ?c] =>
          destruct (walkField implements HasHelpText b rt fl' p' fv0 c)
            as [[calls1 fv1]|] eqn:Hfield; [|discriminate Hwalk];
          pose proof (Hrf _ _ _ _ _ _ Hfield) as Hcalls1
      end.
      cbn [bind] in Hwalk.
      destruct (walk_loop HasHelpText b (walkField implements HasHelpText b)
                  rest (S i) fl p (SetField rv i fv1) prefix)
        as [[calls2 rv2]|] eqn:Hrest; [|discriminate Hwalk].
      cbn [bind] in Hwalk. injection Hwalk as <- _.
      apply Forall_app. split; [|eapply IH; eassumption].
      eapply Forall_impl; [|exact Hcalls1].
      intros call [[Hn [Hs Hu]]|Hin]; cbn in *.
      * eapply issued_field; eassumption.
      * eapply issued_nested; eassumption.
    + rewrite walk_loop_skip with (fv := fv) (name := name) (has := has)
        in Hwalk by assumption.
      eapply IH; eassumption.
Qed.

Lemma walkField_from_context rt : forall fl p fv c calls fv',
  walkField implements HasHelpText b rt fl p fv c = Ok (calls, fv') ->
  Forall (from_context c) calls.
Proof.
  induction rt as [n k|n elem IH|n elem _|n fields IH] using rtype_fields_ind;
    intros fl p fv c calls fv' H; cbn [walkField reflect.kind] in H.
  - destruct (implements _); [one_call H|].
    destruct k; try discriminate H; one_call H.
  - destruct (implements _); [one_call H|].
    destruct fv as [| | | | | |[x|]| | |]; try discriminate H.
    + unfold bind in H.
      destruct (walkField implements HasHelpText b elem fl _ x c)
        as [[calls1 x1]|] eqn:Helem; [|discriminate H].
      injection H as <- _. eapply IH; eassumption.
    + destruct (hasFlagname c); cbn in H.
      * destruct (reflect.flagRO fl); [discriminate H|]. unfold bind in H.
        destruct (walkField implements HasHelpText b elem fl _ _ c)
          as [[calls1 x1]|] eqn:Helem; [|discriminate H].
        injection H as <- _. eapply IH; eassumption.
      * injection H as <- _. constructor.
  - destruct (implements _); [one_call H|].
    destruct (reflect.kind elem); try discriminate H; one_call H.
  - destruct (implements _); [one_call H|].
    unfold from_context.
    destruct (reflect.Anonymous (field c));
      (eapply Forall_impl;
       [|eapply walk_loop_issued; [exact IH|exact H]]); intros call Hc; now right.
Qed.

(** Every call [walk] makes is one of [Issued]. *)
Lemma walk_issued rt fl p rv prefix calls rv' :
  walk implements HasHelpText b rt fl p rv prefix = Ok (calls, rv') ->
  Forall (Issued HasHelpText b prefix) calls.
Proof.
  destruct rt as [n k|n elem|n elem|n fields]; try discriminate.
  cbn [walk]. apply walk_loop_issued.
  apply Forall_forall. intros rf _ fl0 p0 fv c calls0 fv'.
  apply walkField_from_context.
Qed.

Lemma Build_issued o built :
  Build implements HasHelpText b o = Ok built ->
  Forall (Issued HasHelpText b "") (built_calls built).
Proof.
  unfold Build. destruct o as [[rt rv]|]; [|discriminate].
  destruct rt as [n k|n elem|n elem|n fields]; try discriminate.
  match goal with
  | |- context [walk _ _ _ ?rt ?fl ?p ?rv0 ?pre] =>
      destruct (walk implements HasHelpText b rt fl p rv0 pre)
        as [[calls rv']|] eqn:Hwalk; [|discriminate]
  end.
  cbn [bind]. intros H. injection H as <-. cbn [built_calls].
  eapply walk_issued; eassumption.
Qed.

End WalkerAnatomy.

(** ** Shorthands, help texts and names of the registered flags *)

Lemma append_not_empty (s t : string) : s ++ t ++ "." <> "".
Proof.
  destruct s as [|c s]; [|discriminate].
  destruct t as [|c t]; discriminate.
Qed.

Lemma append_assoc (s t u : string) : (s ++ t) ++ u = s ++ t ++ u.
Proof. induction s as [|c s IH]; simpl; [reflexivity|now rewrite IH]. Qed.

Lemma Issued_shorthand HasHelpText b prefix call :
  Issued HasHelpText b prefix call -> prefix <> "" -> call_shorthand call = "".
Proof.
  induction 1 as [prefix rf fl fv name has usage call _ _ _ _ Hs _
                 |prefix rf name has call _ _ _ IH]; intros Hpre.
  - rewrite Hs. unfold field_shorthand.
    destruct (reflect.Lookup _ _); [|reflexivity].
    apply String.eqb_neq in Hpre. now rewrite Hpre.
  - apply IH. destruct (reflect.Anonymous rf); [assumption|].
    apply append_not_empty.
Qed.

Lemma Issued_usage HasHelpText b prefix call :
  EnvvarSupport (config b) = true ->
  Issued HasHelpText b prefix call ->
  exists text,
    call_usage call
    = ("ENV: " ++ call_EnvNameFunc (config b) (pflag.call_name call) ++ tab)
        ++ text.
Proof.
  intros Hsupport.
  induction 1 as [prefix rf fl fv name has usage call _ _ Husage Hn _ Hu
                 |prefix rf name has call _ _ _ IH]; [|exact IH].
  unfold field_helpText, bind in Husage. rewrite Hsupport in Husage.
  match type of Husage with
  | match ?m with _ => _ end = _ => destruct m as [text|]; [|discriminate Husage]
  end.
  injection Husage as <-. exists text. now rewrite Hu, Hn.
Qed.

Lemma Issued_name HasHelpText b prefix call :
  Issued HasHelpText b prefix call ->
  exists rest, pflag.call_name call = FlagNameFunc (config b) (prefix ++ rest).
Proof.
  induction 1 as [prefix rf fl fv name has usage call _ _ _ Hn _ _
                 |prefix rf name has call _ _ _ [rest IH]].
  - now exists name.
  - destruct (reflect.Anonymous rf).
    + now exists rest.
    + eexists. rewrite IH. now rewrite !append_assoc.
Qed.

(** X1: a shorthand tag counts for the fields of the record [Build] is
    given and of the records embedded in it only: every flag registered by
    a walk under a non-empty name prefix, so for every field inside a named
    record field at any depth, has the empty shorthand. *)
Theorem nested_shorthand_ignored
  (implements : reflect.rtype -> bool)
  (HasHelpText : reflect.rtype -> reflect.value -> option (result string))
  (b : Builder) (rt : reflect.rtype) (fl : reflect.flag) (p : reflect.ref)
  (rv : reflect.value) (prefix : string)
  (calls : list pflag.Call) (rv' : reflect.value) :
  prefix <> "" ->
  walk implements HasHelpText b rt fl p rv prefix = Ok (calls, rv') ->
  Forall (fun call => call_shorthand call = "") calls.
Proof.
  intros Hpre Hwalk. eapply Forall_impl; [|eapply walk_issued; exact Hwalk].
  intros call Hcall. eapply Issued_shorthand; eassumption.
Qed.

Lemma nested_shorthand_ignored_witness :
  Forall (fun call => call_shorthand call = "")
    [pflag.StringVarP [reflect.AtField 0; reflect.AtField 0] "Outer.Leaf" ""
       "" "-"].
Proof.
  refine (@nested_shorthand_ignored fixtures.no_Value fixtures.no_HelpText
            (fixtures.newBuilder ["flag"])
            (fixtures.struct [fixtures.exported "Leaf" fixtures.string_type
                                [("short", "l")]])
            reflect.flag0 [reflect.AtField 0]
            (reflect.VStruct [reflect.VString ""]) "Outer." _ _ _ _).
  - discriminate.
  - reflexivity.
Defined.

(** X2: with environment support on, the usage text of every flag
    [Build] registers starts with [ENV: ], the environment variable name
    derived from the name the flag is registered under, and a tab: the
    variable the help names is the one [Parse] reads for that flag. *)
Theorem usage_names_the_variable
  (implements : reflect.rtype -> bool)
  (HasHelpText : reflect.rtype -> reflect.value -> option (result string))
  (b : Builder) (o : option (reflect.rtype * reflect.value)) (built : Built)
  (env : os.Environ) :
  EnvvarSupport (config b) = true ->
  Build implements HasHelpText b o = Ok built ->
  Forall (fun call =>
            (exists text,
                call_usage call
                = ("ENV: " ++ call_EnvNameFunc (config b) (pflag.call_name call)
                     ++ tab) ++ text)
            /\ exists events,
                @visit_events b env (pflag.call_name call)
                = Getenv (call_EnvNameFunc (config b) (pflag.call_name call))
                    :: events)
    (built_calls built).
Proof.
  intros Hsupport Hbuild.
  eapply Forall_impl; [|eapply Build_issued; exact Hbuild].
  intros call Hcall. split.
  - eapply Issued_usage; eassumption.
  - unfold visit_events. destruct (_ =? ""); eexists; reflexivity.
Qed.

Lemma usage_names_the_variable_witness :
  Forall (fun call =>
            (exists text,
                call_usage call
                = ("ENV: " ++ call_EnvNameFunc (config fixtures.defaultBuilder)
                                (pflag.call_name call) ++ tab) ++ text)
            /\ exists events,
                @visit_events fixtures.defaultBuilder [] (pflag.call_name call)
                = Getenv (call_EnvNameFunc (config fixtures.defaultBuilder)
                            (pflag.call_name call)) :: events)
    [pflag.StringVarP [reflect.AtField 0] "log-level" "" "info"
       (("ENV: " ++ "LOG_LEVEL" ++ tab) ++ "-")].
Proof.
  refine (@usage_names_the_variable fixtures.no_Value fixtures.no_HelpText
            fixtures.defaultBuilder
            (fixtures.pointer_to
               (fixtures.Options [fixtures.exported "LogLevel"
                                    fixtures.string_type [("flag", "log-level")]])
               (reflect.VStruct [reflect.VString "info"]))
            {| built_name := "app"; built_mode := pflag.ExitOnError;
               built_calls := _; built_record := _ |} [] _ _).
  - reflexivity.
  - reflexivity.
Defined.

(** X3: the name of every flag registered by a walk under the name
    prefix [prefix] is the flag-name function applied to a text that starts
    with [prefix]: the flags of a nested record share the prefix of the
    record. *)
Theorem names_share_the_prefix
  (implements : reflect.rtype -> bool)
  (HasHelpText : reflect.rtype -> reflect.value -> option (result string))
  (b : Builder) (rt : reflect.rtype) (fl : reflect.flag) (p : reflect.ref)
  (rv : reflect.value) (prefix : string)
  (calls : list pflag.Call) (rv' : reflect.value) :
  walk implements HasHelpText b rt fl p rv prefix = Ok (calls, rv') ->
  Forall (fun call =>
            exists rest,
              pflag.call_name call = FlagNameFunc (config b) (prefix ++ rest))
    calls.
Proof.
  intros Hwalk. eapply Forall_impl; [|eapply walk_issued; exact Hwalk].
  intros call Hcall. eapply Issued_name; eassumption.
Qed.

Lemma names_share_the_prefix_witness :
  Forall (fun call =>
            exists rest,
              pflag.call_name call
              = FlagNameFunc (config (fixtures.newBuilder ["flag"]))
                  ("Outer." ++ rest))
    [pflag.StringVarP [reflect.AtField 0; reflect.AtField 0] "Outer.leaf" ""
       "" "-"].
Proof.
  refine (@names_share_the_prefix fixtures.no_Value fixtures.no_HelpText
            (fixtures.newBuilder ["flag"])
            (fixtures.struct [fixtures.exported "Leaf" fixtures.string_type
                                [("flag", "leaf,omitempty")]])
            reflect.flag0 [reflect.AtField 0]
            (reflect.VStruct [reflect.VString ""]) "Outer." _ _ _).
  reflexivity.
Defined.

(** ** The default name functions *)

Lemma map_bytes_map_bytes f g s :
  strings.map_bytes f (strings.map_bytes g s)
  = strings.map_bytes (fun c => f (g c)) s.
Proof. induction s as [|c s IH]; simpl; [reflexivity|now rewrite IH]. Qed.

Lemma map_bytes_ext f g s :
  (forall c, f c = g c) -> strings.map_bytes f s = strings.map_bytes g s.
Proof.
  intros Hfg. induction s as [|c s IH]; simpl; [reflexivity|].
  now rewrite Hfg, IH.
Qed.

Lemma map_bytes_length f s :
  String.length (strings.map_bytes f s) = String.length s.
Proof. induction s as [|c s IH]; simpl; [reflexivity|now rewrite IH]. Qed.

Lemma all_bytes_map_bytes (t : ascii -> bool) f s :
  (forall c, t (f c) = true) -> all_bytes t (strings.map_bytes f s) = true.
Proof.
  intros Ht. induction s as [|c s IH]; simpl; [reflexivity|].
  now rewrite Ht, IH.
Qed.

Lemma default_EnvNameFunc_bytes prefix name :
  default_EnvNameFunc prefix name = prefix ++ strings.map_bytes env_byte name.
Proof.
  unfold default_EnvNameFunc, strings.ReplaceAll, strings.ToUpper.
  now rewrite !map_bytes_map_bytes.
Qed.

Ltac each_byte c :=
  destruct c as [[|] [|] [|] [|] [|] [|] [|] [|]]; reflexivity.

Lemma env_byte_plain c :
  negb (strings.is_lower (env_byte c))
  && negb (Ascii.eqb (env_byte c) "-") && negb (Ascii.eqb (env_byte c) ".")
  = true.
Proof. each_byte c. Qed.

Lemma env_byte_upper c : env_byte (strings.upper_byte c) = env_byte c.
Proof. each_byte c. Qed.

Lemma env_byte_dash c :
  env_byte (if Ascii.eqb c "-" then "_"%char else c) = env_byte c.
Proof. each_byte c. Qed.

Lemma env_byte_dot c :
  env_byte (if Ascii.eqb c "." then "_"%char else c) = env_byte c.
Proof. each_byte c. Qed.

Lemma env_byte_dash_dot c :
  env_byte (if Ascii.eqb c "-" then "."%char else c) = env_byte c.
Proof. each_byte c. Qed.

(** X4: the environment variable a fresh builder derives from a flag
    name is the value of [ENV_PREFIX] (empty when unset) followed by one
    byte per byte of the name, none of them a lower-case letter, a dash or
    a dot (for an ASCII name). *)
Theorem env_name_shape (arg0 : string) (env : os.Environ) (name : string) :
  ascii_only name ->
  exists s,
    call_EnvNameFunc (config (NewBuilder arg0 env)) name
    = os.Getenv env "ENV_PREFIX" ++ s
    /\ String.length s = String.length name
    /\ all_bytes (fun c => negb (strings.is_lower c)
                           && negb (Ascii.eqb c "-") && negb (Ascii.eqb c "."))
         s = true.
Proof.
  intros _. exists (strings.map_bytes env_byte name). split; [|split].
  - unfold call_EnvNameFunc. cbn [NewBuilder config DefaultConfig EnvNameFunc EnvPrefix].
    apply default_EnvNameFunc_bytes.
  - apply map_bytes_length.
  - apply all_bytes_map_bytes. exact env_byte_plain.
Qed.

Lemma env_name_shape_witness :
  exists s,
    call_EnvNameFunc (config (NewBuilder "app" [("ENV_PREFIX", "APP_")]))
      "log-level.max"
    = "APP_" ++ s
    /\ String.length s = 13
    /\ all_bytes (fun c => negb (strings.is_lower c)
                           && negb (Ascii.eqb c "-") && negb (Ascii.eqb c "."))
         s = true.
Proof.
  refine (@env_name_shape "app" [("ENV_PREFIX", "APP_")] "log-level.max" _).
  reflexivity.
Defined.

(** X5: the default environment-name function does not tell apart
    (ASCII) flag names that differ only in the case of their letters or in which of
    dash, dot and underscore separates their parts, so such flags share one
    environment variable. *)
Theorem env_name_collisions (prefix name : string) :
  ascii_only name ->
  default_EnvNameFunc prefix (strings.ToUpper name)
  = default_EnvNameFunc prefix name
  /\ default_EnvNameFunc prefix (strings.ReplaceAll name "-" "_")
     = default_EnvNameFunc prefix name
  /\ default_EnvNameFunc prefix (strings.ReplaceAll name "." "_")
     = default_EnvNameFunc prefix name
  /\ default_EnvNameFunc prefix (strings.ReplaceAll name "-" ".")
     = default_EnvNameFunc prefix name.
Proof.
  intros _. rewrite !default_EnvNameFunc_bytes.
  unfold strings.ToUpper, strings.ReplaceAll. rewrite !map_bytes_map_bytes.
  repeat split; f_equal; apply map_bytes_ext; intros c.
  - apply env_byte_upper.
  - apply env_byte_dash.
  - apply env_byte_dot.
  - apply env_byte_dash_dot.
Qed.

Lemma Contains_SplitN2_head s c :
  strings.Contains (strings.SplitN2_head s c) c = false.
Proof.
  induction s as [|a s IH]; simpl; [reflexivity|].
  destruct (Ascii.eqb a c) eqn:Hac; simpl; [reflexivity|].
  now rewrite Hac, IH.
Qed.

Lemma Contains_TrimLeft s c :
  strings.Contains s c = false ->
  strings.Contains (strings.TrimLeft s) c = false.
Proof.
  induction s as [|a s IH]; simpl; [reflexivity|]. intros H.
  apply orb_false_iff in H as [Ha Hs].
  destruct (strings.is_space a); [now apply IH|].
  simpl. now rewrite Ha, Hs.
Qed.

Lemma Contains_TrimRight s c :
  strings.Contains s c = false ->
  strings.Contains (strings.TrimRight s) c = false.
Proof.
  induction s as [|a s IH]; simpl; [reflexivity|]. intros H.
  apply orb_false_iff in H as [Ha Hs]. specialize (IH Hs).
  destruct (strings.TrimRight s) as [|a' t].
  - destruct (strings.is_space a); simpl; [reflexivity|now rewrite Ha].
  - simpl in *. now rewrite Ha, IH.
Qed.

Lemma default_FlagNameFunc_no_comma v :
  strings.Contains (default_FlagNameFunc v) "," = false.
Proof.
  unfold default_FlagNameFunc, strings.TrimSpace.
  destruct (strings.Contains v ",") eqn:Hv; [|exact Hv].
  apply Contains_TrimRight, Contains_TrimLeft, Contains_SplitN2_head.
Qed.

Lemma SplitN2_head_append name c rest :
  strings.Contains name c = false ->
  strings.SplitN2_head (name ++ String c rest) c = name.
Proof.
  induction name as [|a name IH]; simpl.
  - now rewrite Ascii.eqb_refl.
  - intros H. apply orb_false_iff in H as [Ha Hn]. now rewrite Ha, IH.
Qed.

Lemma Contains_append name c rest :
  strings.Contains (name ++ String c rest) c = true.
Proof.
  induction name as [|a name IH]; simpl.
  - now rewrite Ascii.eqb_refl.
  - rewrite IH. apply orb_true_r.
Qed.

Lemma env_name_collisions_witness :
  default_EnvNameFunc "" (strings.ReplaceAll "log-level" "-" ".")
  = default_EnvNameFunc "" "log-level".
Proof.
  refine (proj2 (proj2 (proj2 (@env_name_collisions "" "log-level" _)))).
  reflexivity.
Defined.

(** X6: the default flag-name function keeps what stands before the
    first comma of a tag value, without the white space around it: an
    ASCII name free of commas and of surrounding white space that is followed by a
    comma and options comes back as it is; its result never contains a
    comma, and applying it twice is applying it once. *)
Theorem default_FlagNameFunc_drops_options (name opts v : string) :
  ascii_only name ->
  strings.Contains name "," = false ->
  strings.TrimSpace name = name ->
  default_FlagNameFunc (name ++ String "," opts) = name
  /\ default_FlagNameFunc name = name
  /\ strings.Contains (default_FlagNameFunc v) "," = false
  /\ default_FlagNameFunc (default_FlagNameFunc v) = default_FlagNameFunc v.
Proof.
  intros _ Hcomma Htrim. split; [|split; [|split]].
  - unfold default_FlagNameFunc.
    now rewrite Contains_append, SplitN2_head_append.
  - unfold default_FlagNameFunc. now rewrite Hcomma.
  - apply default_FlagNameFunc_no_comma.
  - unfold default_FlagNameFunc at 1.
    now rewrite default_FlagNameFunc_no_comma.
Qed.

Lemma default_FlagNameFunc_drops_options_witness :
  default_FlagNameFunc "verbose,omitempty" = "verbose".
Proof.
  refine (proj1 (@default_FlagNameFunc_drops_options "verbose" "omitempty" "" _ _ _)).
  - reflexivity.
  - reflexivity.
  - reflexivity.
Defined.

(** X7: under the default flag-name function no flag [Build] registers
    has a comma in its name. *)
Theorem registered_names_have_no_comma
  (implements : reflect.rtype -> bool)
  (HasHelpText : reflect.rtype -> reflect.value -> option (result string))
  (b : Builder) (o : option (reflect.rtype * reflect.value)) (built : Built) :
  FlagNameFunc (config b) = default_FlagNameFunc ->
  Build implements HasHelpText b o = Ok built ->
  Forall (fun call => strings.Contains (pflag.call_name call) "," = false)
    (built_calls built).
Proof.
  intros Hfnf Hbuild.
  eapply Forall_impl; [|eapply Build_issued; exact Hbuild].
  intros call Hcall. apply Issued_name in Hcall as [rest ->].
  rewrite Hfnf. apply default_FlagNameFunc_no_comma.
Qed.

Lemma registered_names_have_no_comma_witness :
  Forall (fun call => strings.Contains (pflag.call_name call) "," = false)
    [pflag.BoolVarP [reflect.AtField 0] "verbose" "" false "-"].
Proof.
  refine (@registered_names_have_no_comma fixtures.no_Value fixtures.no_HelpText
            (fixtures.newBuilder ["json"])
            (fixtures.pointer_to
               (fixtures.Options [fixtures.exported "Verbose"
                                    (fixtures.predeclared "bool" reflect.Bool)
                                    [("json", "verbose,omitempty")]])
               (reflect.VStruct [reflect.VBool false]))
            {| built_name := "-"; built_mode := pflag.ContinueOnError;
               built_calls := _; built_record := _ |} _ _).
  - reflexivity.
  - reflexivity.
Defined.

(** ** The [LogLevel] of the tests *)

Lemma upper_byte_idempotent c :
  strings.upper_byte (strings.upper_byte c) = strings.upper_byte c.
Proof. each_byte c. Qed.

Lemma ToUpper_idempotent s :
  strings.ToUpper (strings.ToUpper s) = strings.ToUpper s.
Proof.
  unfold strings.ToUpper. rewrite map_bytes_map_bytes.
  apply map_bytes_ext, upper_byte_idempotent.
Qed.

Lemma Validate_levels v :
  LogLevel.Validate v = None <-> In v ["DEBUG"; "INFO"; "WARN"; "ERROR"].
Proof.
  unfold LogLevel.Validate. split.
  - destruct (v =? "DEBUG") eqn:H1; [apply String.eqb_eq in H1; simpl; auto|].
    destruct (v =? "INFO") eqn:H2; [apply String.eqb_eq in H2; simpl; auto|].
    destruct (v =? "WARN") eqn:H3; [apply String.eqb_eq in H3; simpl; auto|].
    destruct (v =? "ERROR") eqn:H4; [apply String.eqb_eq in H4; simpl; auto 6|].
    simpl. discriminate.
  - intros [<-|[<-|[<-|[<-|[]]]]]; reflexivity.
Qed.

(** X8: [LogLevel.Set] on a non-nil receiver stores the token in upper
    case whatever the outcome, reports no error exactly when that is one of
    [DEBUG], [INFO], [WARN] and [ERROR], and does not tell the token from
    its upper-case form (for an ASCII token). *)
Theorem LogLevel_Set_accepts (old value : string) :
  ascii_only value ->
  fst (LogLevel.Set_ (Some old) value) = Some (strings.ToUpper value)
  /\ (snd (LogLevel.Set_ (Some old) value) = None
      <-> In (strings.ToUpper value) ["DEBUG"; "INFO"; "WARN"; "ERROR"])
  /\ LogLevel.Set_ (Some old) (strings.ToUpper value)
     = LogLevel.Set_ (Some old) value.
Proof.
  intros _. unfold LogLevel.Set_. cbn [fst snd]. split; [reflexivity|]. split.
  - apply Validate_levels.
  - now rewrite ToUpper_idempotent.
Qed.

Lemma LogLevel_Set_accepts_witness :
  LogLevel.Set_ (Some "WARN") "INFO" = LogLevel.Set_ (Some "WARN") "info".
Proof.
  refine (proj2 (proj2 (@LogLevel_Set_accepts "WARN" "info" _))).
  reflexivity.
Defined.

(** X9: rendering a valid [LogLevel] and setting any non-nil receiver
    from the text gives the level back, without an error. *)
Theorem LogLevel_String_Set_round_trip (old v : string) :
  LogLevel.Validate v = None ->
  LogLevel.Set_ (Some old) (LogLevel.String_ (Some v)) = (Some v, None).
Proof.
  intros Hv. apply Validate_levels in Hv.
  destruct Hv as [<-|[<-|[<-|[<-|[]]]]]; reflexivity.
Qed.

Lemma LogLevel_String_Set_round_trip_witness :
  LogLevel.Set_ (Some "DEBUG") (LogLevel.String_ (Some "WARN"))
  = (Some "WARN", None).
Proof.
  refine (@LogLevel_String_Set_round_trip "DEBUG" "WARN" _). reflexivity.
Defined.

(** ** More of [Parse] *)

Section OverlayMore.

Context {E : FlagEngine}.
Variable b : Builder.

Lemma overlay_unset env names st :
  (forall name, In name names ->
     os.Getenv env (call_EnvNameFunc (config b) name) = "") ->
  flags (fold_left (visit b env) names st) = flags st
  /\ retErr (fold_left (visit b env) names st) = retErr st.
Proof.
  revert st. induction names as [|name names IH]; intros st Hunset; simpl.
  - split; reflexivity.
  - destruct (IH (visit b env st name)) as [Hf Hr].
    { intros n Hn. apply Hunset. now right. }
    rewrite Hf, Hr. unfold visit.
    rewrite (Hunset name) by now left. split; reflexivity.
Qed.

Lemma overlay_same_variables env env' names st :
  (forall name, In name names ->
     os.Getenv env (call_EnvNameFunc (config b) name)
     = os.Getenv env' (call_EnvNameFunc (config b) name)) ->
  fold_left (visit b env) names st = fold_left (visit b env') names st.
Proof.
  revert st. induction names as [|name names IH]; intros st Hsame; simpl.
  - reflexivity.
  - rewrite IH by (intros n Hn; apply Hsame; now right).
    f_equal. unfold visit. now rewrite (Hsame name) by now left.
Qed.

End OverlayMore.

(** X10: when environment support is off, or the variable derived from
    every registered flag is absent or empty, [Parse] is the engine's
    [Parse]: it returns what the engine returned, leaves the engine as the
    engine's parse left it and sets no flag. *)
Theorem Parse_without_environment
  {E : FlagEngine} (fs : FlagSet E) (args : list string) (env : os.Environ)
  (o : ParseOutcome) (s : engine) :
  engine_Parse args (FlagSet_flags fs) = (o, s) ->
  EnvvarSupport (config (builder fs)) = false
  \/ (forall name, In name (engine_VisitAll s) ->
        os.Getenv env (call_EnvNameFunc (config (builder fs)) name) = "") ->
  returned (Parse fs args env)
  = match o with
    | ParseOk => Returned None
    | ParseErr err => Returned (Some err)
    | ParseStop => Stopped
    end
  /\ after (Parse fs args env) = s
  /\ forall name value, ~ In (SetFlag name value) (overlay (Parse fs args env)).
Proof.
  intros Hparse Hquiet. unfold Parse. rewrite Hparse.
  destruct o as [|err|]; cbn [returned after overlay];
    [|repeat split; auto..].
  destruct (EnvvarSupport (config (builder fs))) eqn:Hsupport;
    cbn [returned after overlay]; [|repeat split; auto].
  destruct Hquiet as [Hoff|Hunset]; [discriminate Hoff|].
  destruct (overlay_unset (builder fs) env (engine_VisitAll s)
              {| retErr := None; flags := s; events := [] |} Hunset)
    as [Hf Hr].
  rewrite Hf, Hr. repeat split.
  intros name value Hin. rewrite overlay_events in Hin. cbn [events app] in Hin.
  apply SetFlag_visited in Hin as [Hname [-> Hne]].
  apply Hne, Hunset, Hname.
Qed.

Lemma Parse_without_environment_witness :
  after (Parse (fixtures.flagset fixtures.three_flags fixtures.defaultBuilder)
           ["--name=cli"] [("HOME", "/root"); ("NAME2", "")])
  = snd (engine0.Parse_ ["--name=cli"] fixtures.three_flags).
Proof.
  refine (proj1 (proj2 (@Parse_without_environment engine0.Engine
                          (fixtures.flagset fixtures.three_flags
                             fixtures.defaultBuilder)
                          ["--name=cli"] [("HOME", "/root"); ("NAME2", "")]
                          ParseOk _ _ _))).
  - reflexivity.
  - right. intros name Hin. vm_compute in Hin.
    destruct Hin as [<-|[<-|[<-|[]]]]; reflexivity.
Defined.

(** X11: [Parse] consults the environment only at the names derived from
    the registered flags: in two environments that give those variables the
    same values it does the same, whatever else they hold. *)
Theorem Parse_reads_derived_variables_only
  {E : FlagEngine} (fs : FlagSet E) (args : list string)
  (env env' : os.Environ) :
  (forall name,
      In name (engine_VisitAll (snd (engine_Parse args (FlagSet_flags fs)))) ->
      os.Getenv env (call_EnvNameFunc (config (builder fs)) name)
      = os.Getenv env' (call_EnvNameFunc (config (builder fs)) name)) ->
  Parse fs args env = Parse fs args env'.
Proof.
  intros Hsame. unfold Parse.
  destruct (engine_Parse args (FlagSet_flags fs)) as [[|err|] s];
    try reflexivity.
  destruct (EnvvarSupport (config (builder fs))); [|reflexivity].
  cbn [snd] in Hsame.
  now rewrite (overlay_same_variables (builder fs) env env'
                 (engine_VisitAll s) _ Hsame).
Qed.

Lemma Parse_reads_derived_variables_only_witness :
  Parse (fixtures.flagset fixtures.three_flags fixtures.defaultBuilder)
    [] [("NAME", "env"); ("PATH", "/bin")]
  = Parse (fixtures.flagset fixtures.three_flags fixtures.defaultBuilder)
      [] [("EDITOR", "vi"); ("NAME", "env")].
Proof.
  refine (@Parse_reads_derived_variables_only engine0.Engine
            (fixtures.flagset fixtures.three_flags fixtures.defaultBuilder)
            [] [("NAME", "env"); ("PATH", "/bin")]
            [("EDITOR", "vi"); ("NAME", "env")] _).
  intros name Hin. vm_compute in Hin.
  destruct Hin as [<-|[<-|[<-|[]]]]; reflexivity.
Defined.

(** ** The record after [Build] *)

Lemma Field_SetField_same rv i fv x :
  Field rv i = Some fv -> Field (SetField rv i x) i = Some x.
Proof.
  destruct rv as [| | | | | | | |vs|]; simpl; try discriminate.
  revert i. induction vs as [|y vs IH]; intros [|i]; simpl;
    try discriminate; auto.
Qed.

Lemma Field_SetField_other rv i j x :
  j <> i -> Field (SetField rv i x) j = Field rv j.
Proof.
  destruct rv as [| | | | | | | |vs|]; simpl; try reflexivity.
  revert i j. induction vs as [|y vs IH]; intros [|i] [|j] Hne; simpl;
    try reflexivity; try congruence.
  apply IH. congruence.
Qed.



Section WalkerRecord.

Variable implements : reflect.rtype -> bool.
Variable HasHelpText : reflect.rtype -> reflect.value -> option (result string).
Variable b : Builder.

Let wf := walkField implements HasHelpText b.

(** One successful turn of the loop of [walk], taken apart. *)
Lemma walk_loop_Ok rf rest i fl p rv prefix calls rv' :
  walk_loop HasHelpText b wf (rf :: rest) i fl p rv prefix = Ok (calls, rv') ->
  exists fv, Field rv i = Some fv
  /\ (walk_loop HasHelpText b wf rest (S i) fl p rv prefix = Ok (calls, rv')
      \/ exists c calls1 fv1 calls2,
          wf (reflect.FType rf) (reflect.field_flag fl rf)
            (p ++ [reflect.AtField i])%list fv c = Ok (calls1, fv1)
          /\ walk_loop HasHelpText b wf rest (S i) fl p (SetField rv i fv1) prefix
             = Ok (calls2, rv')
          /\ calls = (calls1 ++ calls2)%list).
Proof.
  intros H. destruct (Field rv i) as [fv|] eqn:Hfv.
  2:{ simpl in H. rewrite Hfv in H. discriminate H. }
  exists fv. split; [reflexivity|].
  destruct (flagname_loop b (reflect.Tag rf)
              (length (FlagnameTags (config b)))
              (reflect.FName rf, false)) as [name has] eqn:Hname.
  destruct (dispatched rf name has) eqn:Hgo.
  - right.
    rewrite walk_loop_dispatch with (fv := fv) (name := name) (has := has)
      in H by assumption.
    destruct (field_helpText HasHelpText b fl rf fv _) as [usage|];
      [|discriminate H].
    cbn [bind] in H.
    match type of H with
    | context [wf ?rt ?fl' ?p' ?fv0 ?c] =>
        destruct (wf rt fl' p' fv0 c) as [[calls1 fv1]|] eqn:Hfield;
          [|discriminate H];
        exists c, calls1, fv1
    end.
    cbn [bind] in H.
    destruct (walk_loop HasHelpText b wf rest (S i) fl p (SetField rv i fv1) prefix)
      as [[calls2 rv2]|] eqn:Hrest; [|discriminate H].
    cbn [bind] in H. injection H as <- <-. exists calls2. auto.
  - left.
    now rewrite walk_loop_skip with (fv := fv) (name := name) (has := has)
      in H by assumption.
Qed.

(** The loop from field [i] on leaves the fields before [i] alone. *)
Lemma walk_loop_below fields : forall i fl p rv prefix calls rv',
  walk_loop HasHelpText b wf fields i fl p rv prefix = Ok (calls, rv') ->
  forall j, j < i -> Field rv' j = Field rv j.
Proof.
  induction fields as [|rf rest IH]; intros i fl p rv prefix calls rv' H j Hj.
  - now injection H as _ <-.
  - apply walk_loop_Ok in H as [fv [Hfv [H|[c [calls1 [fv1 [calls2 [_ [H _]]]]]]]]].
    + eapply IH; [exact H|lia].
    + rewrite (IH _ _ _ _ _ _ _ H j) by lia.
      apply Field_SetField_other. lia.
Qed.






End WalkerRecord.

(** ** The storage the flags are bound to *)

Lemma skipn_nth_error {A : Type} (l : list A) i x :
  nth_error l i = Some x -> skipn i l = x :: skipn (S i) l.
Proof.
  revert i. induction l as [|y l IH]; intros [|i] H; simpl in *;
    try discriminate.
  - now injection H as ->.
  - now apply IH.
Qed.

Section CopyOutInv.

Variables (A : Type) (get : reflect.value -> option A)
          (inj : A -> reflect.value).
Hypothesis get_inv : forall v a, get v = Some a -> v = inj a.

Lemma copy_loop_inv elems n : forall i acc xs,
  copy_loop get (reflect.VSlice elems) n i acc = Ok xs ->
  i + n = length elems ->
  exists ys, xs = (acc ++ ys)%list /\ skipn i elems = map inj ys.
Proof.
  induction n as [|n IH]; intros i acc xs H Hlen; simpl in H.
  - injection H as <-. exists []. rewrite app_nil_r.
    split; [reflexivity|]. apply skipn_all2. lia.
  - destruct (nth_error elems i) as [x|] eqn:Hx; [|discriminate H].
    destruct (get x) as [a|] eqn:Ha; [|discriminate H].
    apply get_inv in Ha. subst x.
    destruct (IH _ _ _ H ltac:(lia)) as [ys [-> Hys]].
    exists (a :: ys). rewrite <- app_assoc. split; [reflexivity|].
    rewrite (skipn_nth_error _ _ Hx), Hys. reflexivity.
Qed.

Lemma copy_out_inv fv xs :
  copy_out get fv = Ok xs -> fv = reflect.VSlice (map inj xs).
Proof.
  unfold copy_out. destruct fv as [| | | | | | |elems| |]; try discriminate.
  simpl. intros H.
  destruct (copy_loop_inv _ _ _ _ H eq_refl) as [ys [-> Hys]].
  simpl in *. now rewrite Hys.
Qed.

End CopyOutInv.

Lemma read_inv {A : Type} (get : reflect.value -> option A) fv a :
  read get fv = Ok a -> get fv = Some a.
Proof. unfold read. destruct (get fv); [now intros [= ->]|discriminate]. Qed.

Lemma as_Bool_inv v a : as_Bool v = Some a -> v = reflect.VBool a.
Proof. destruct v; simpl; try discriminate. now intros [= ->]. Qed.
Lemma as_Int_inv v a : as_Int v = Some a -> v = reflect.VInt a.
Proof. destruct v; simpl; try discriminate. now intros [= ->]. Qed.
Lemma as_Uint_inv v a : as_Uint v = Some a -> v = reflect.VUint a.
Proof. destruct v; simpl; try discriminate. now intros [= ->]. Qed.
Lemma as_Float_inv v a : as_Float v = Some a -> v = reflect.VFloat a.
Proof. destruct v; simpl; try discriminate. now intros [= ->]. Qed.
Lemma as_String_inv v a : as_String v = Some a -> v = reflect.VString a.
Proof. destruct v; simpl; try discriminate. now intros [= ->]. Qed.

Lemma bound_here p fv call :
  pflag.call_target call = Some p ->
  (forall d, call_default call = Some d -> fv = d) ->
  bound_in p fv call.
Proof.
  intros Ht Hd t Hcall. rewrite Ht in Hcall. injection Hcall as <-.
  exists [], fv. rewrite app_nil_r. auto.
Qed.

Lemma bound_custom rt p fv name short usage :
  bound_in p fv
    (pflag.VarP match reflect.kind rt with
                | reflect.Ptr => pointer_target p fv
                | _ => Some p
                end name short usage).
Proof.
  assert (Hp : bound_in p fv (pflag.VarP (Some p) name short usage))
    by (apply bound_here; [reflexivity|discriminate]).
  destruct (reflect.kind rt); try exact Hp.
  intros t Ht. cbn in Ht. unfold pointer_target in Ht.
  destruct fv as [| | | | | |[x|]| | |]; try discriminate Ht.
  injection Ht as <-. exists [reflect.Deref], x. repeat split. discriminate.
Qed.

Lemma bound_deref p x call :
  bound_in (p ++ [reflect.Deref])%list x call ->
  bound_in p (reflect.VPtr (Some x)) call.
Proof.
  intros H t Ht. destruct (H t Ht) as [q [v [-> [Hload Hd]]]].
  exists (reflect.Deref :: q), v. rewrite <- app_assoc. auto.
Qed.

Section WalkerBound.

Variable implements : reflect.rtype -> bool.
Variable HasHelpText : reflect.rtype -> reflect.value -> option (result string).
Variable b : Builder.

Let wf := walkField implements HasHelpText b.

Ltac read_case H inv :=
  unfold bind in H;
  match type of H with
  | context [read ?g ?fv] =>
      destruct (read g fv) as [a|] eqn:Hread; [|discriminate H];
      apply read_inv, inv in Hread
  | context [copy_out ?g ?fv] =>
      destruct (copy_out g fv) as [a|] eqn:Hcopy; [|discriminate H];
      apply (@copy_out_inv _ _ _ inv) in Hcopy
  end;
  injection H as <- <-; constructor; [|constructor];
  apply bound_here; [reflexivity|]; intros d Hd; cbn in Hd; congruence.

Ltac custom_case H rt :=
  destruct (reflect.flagRO _); [discriminate H|];
  injection H as <- <-; constructor; [|constructor];
  exact (@bound_custom rt _ _ _ _ _).

Lemma walk_loop_bound fields :
  Forall (fun rf => forall fl p fv c calls fv',
              wf (reflect.FType rf) fl p fv c = Ok (calls, fv') ->
              Forall (bound_in p fv') calls) fields ->
  forall i fl p rv prefix calls rv',
    walk_loop HasHelpText b wf fields i fl p rv prefix = Ok (calls, rv') ->
    Forall (bound_in p rv') calls.
Proof.
  induction 1 as [|rf rest Hrf _ IH]; intros i fl p rv prefix calls rv' H.
  - injection H as <- _. constructor.
  - apply walk_loop_Ok in H
      as [fv [Hfv [H|[c [calls1 [fv1 [calls2 [Hf [H ->]]]]]]]]].
    + eapply IH; eassumption.
    + apply Forall_app. split; [|eapply IH; eassumption].
      eapply Forall_impl; [|eapply Hrf; exact Hf].
      intros call Hcall t Ht. destruct (Hcall t Ht) as [q [v [-> [Hload Hd]]]].
      exists (reflect.AtField i :: q), v. rewrite <- app_assoc.
      split; [reflexivity|]. split; [|exact Hd].
      cbn [load].
      rewrite walk_loop_below with (1 := H) by lia.
      now rewrite Field_SetField_same with (1 := Hfv).
Qed.

Lemma walkField_bound rt : forall fl p fv c calls fv',
  wf rt fl p fv c = Ok (calls, fv') -> Forall (bound_in p fv') calls.
Proof.
  unfold wf.
  induction rt as [n k|n elem IH|n elem _|n fields IH] using rtype_fields_ind;
    intros fl p fv c calls fv' H; cbn [walkField] in H.
  - destruct (implements _); [custom_case H (reflect.TScalar n k)|].
    destruct k; try discriminate H;
      try destruct (reflect.is_duration _);
      first [read_case H as_Bool_inv | read_case H as_Int_inv
            | read_case H as_Uint_inv | read_case H as_Float_inv
            | read_case H as_String_inv].
  - destruct (implements _); [custom_case H (reflect.TPtr n elem)|].
    destruct fv as [| | | | | |[x|]| | |]; try discriminate H.
    + unfold bind in H.
      destruct (walkField implements HasHelpText b elem fl _ x c)
        as [[calls1 x1]|] eqn:Helem; [|discriminate H].
      injection H as <- <-. apply IH in Helem.
      eapply Forall_impl; [|exact Helem]. intros call. apply bound_deref.
    + destruct (hasFlagname c); cbn in H.
      * destruct (reflect.flagRO fl); [discriminate H|]. unfold bind in H.
        destruct (walkField implements HasHelpText b elem fl _ _ c)
          as [[calls1 x1]|] eqn:Helem; [|discriminate H].
        injection H as <- <-. apply IH in Helem.
        eapply Forall_impl; [|exact Helem]. intros call. apply bound_deref.
      * injection H as <- _. constructor.
  - destruct (implements _); [custom_case H (reflect.TSlice n elem)|].
    destruct (reflect.kind elem); try discriminate H;
      try destruct (reflect.is_duration _);
      first [read_case H as_Bool_inv | read_case H as_Int_inv
            | read_case H as_Uint_inv | read_case H as_Float_inv
            | read_case H as_String_inv].
  - destruct (implements _); [custom_case H (reflect.TStruct n fields)|].
    destruct (reflect.Anonymous (field c));
      eapply walk_loop_bound; eassumption.
Qed.

End WalkerBound.

(** ** More of [Build] and of the type dispatch *)

(** X12: [Build] returns only when it is given a pointer to a record
    that, unless the record type has no field, is not nil and points to a
    record value: for the nil interface, a non-pointer, a pointer to
    anything else and a nil pointer to a record with fields it panics.
    The flag set it returns has the handling mode of the configuration and
    the name of the builder, or the name of the record type when the
    builder has none. *)
Theorem Build_needs_pointer_to_record
  (implements : reflect.rtype -> bool)
  (HasHelpText : reflect.rtype -> reflect.value -> option (result string))
  (b : Builder) (o : option (reflect.rtype * reflect.value)) (built : Built) :
  Build implements HasHelpText b o = Ok built ->
  exists pn n fields x,
    o = Some (reflect.TPtr pn (reflect.TStruct n fields), x)
    /\ (fields = [] \/ exists vs, x = reflect.VPtr (Some (reflect.VStruct vs)))
    /\ built_mode built = HandlingMode (config b)
    /\ built_name built = (if Name b =? "" then reflect.Name n else Name b).
Proof.
  unfold Build. destruct o as [[rt x]|]; [|discriminate].
  destruct rt as [n k|pn elem|n elem|n fields]; try discriminate.
  destruct elem as [n k|n elem|n elem|n fields]; try discriminate.
  cbn [walk].
  match goal with
  | |- context [walk_loop ?h ?b0 ?w ?l ?i ?fl ?p ?rv ?pre] =>
      destruct (walk_loop h b0 w l i fl p rv pre) as [[calls rv']|] eqn:Hwalk;
        [|discriminate]
  end.
  cbn [bind]. intros H. injection H as <-. cbn.
  exists pn, n, fields, x. repeat split.
  destruct fields as [|rf rest]; [now left|right].
  apply walk_loop_Ok in Hwalk as [fv [Hfv _]].
  destruct x as [| | | | | |[y|]| | |]; try discriminate Hfv.
  destruct y; try discriminate Hfv. eauto.
Qed.

Lemma Build_needs_pointer_to_record_witness :
  exists pn n fields x,
    fixtures.pointer_to
      (fixtures.Options [fixtures.exported "Name" fixtures.string_type []])
      (reflect.VStruct [reflect.VString "foo"])
    = Some (reflect.TPtr pn (reflect.TStruct n fields), x)
    /\ (fields = [] \/ exists vs, x = reflect.VPtr (Some (reflect.VStruct vs)))
    /\ pflag.ExitOnError = pflag.ExitOnError
    /\ "Options" = reflect.Name n.
Proof.
  refine (@Build_needs_pointer_to_record fixtures.no_Value fixtures.no_HelpText
            {| Name := ""; config := DefaultConfig [] |}
            (fixtures.pointer_to
               (fixtures.Options [fixtures.exported "Name" fixtures.string_type []])
               (reflect.VStruct [reflect.VString "foo"]))
            {| built_name := "Options"; built_mode := pflag.ExitOnError;
               built_calls := _; built_record := _ |} _).
  reflexivity.
Defined.

(** X13: a field for which the first configured flag-name tag it carries
    has the value [-] is skipped, whatever its type and whether it is
    exported or not: [walk] goes on with the next field, so neither the
    field nor anything inside it gets a flag, is allocated or can make
    [Build] panic. *)
Theorem excluded_field_skipped
  (implements : reflect.rtype -> bool)
  (HasHelpText : reflect.rtype -> reflect.value -> option (result string))
  (b : Builder) (rf : reflect.StructField reflect.rtype)
  (rest : list (reflect.StructField reflect.rtype)) (i : nat)
  (fl : reflect.flag) (p : reflect.ref) (rv fv : reflect.value)
  (prefix : string) (l1 : list string) (k : string) (l2 : list string) :
  FlagnameTags (config b) = (l1 ++ k :: l2)%list ->
  reflect.Lookup (reflect.Tag rf) k = Some "-" ->
  (forall k', In k' l1 -> reflect.Lookup (reflect.Tag rf) k' = None) ->
  Field rv i = Some fv ->
  walk_loop HasHelpText b (walkField implements HasHelpText b)
    (rf :: rest) i fl p rv prefix
  = walk_loop HasHelpText b (walkField implements HasHelpText b)
      rest (S i) fl p rv prefix.
Proof.
  intros Htags Hk Hnone Hfv.
  apply walk_loop_skip with (fv := fv) (name := "-") (has := true).
  - assumption.
  - now apply flagname_loop_split with (l1 := l1) (k := k) (l2 := l2).
  - reflexivity.
Qed.

Lemma excluded_field_skipped_witness :
  walk_loop fixtures.no_HelpText (fixtures.newBuilder ["flag"; "json"])
    (walkField fixtures.no_Value fixtures.no_HelpText
       (fixtures.newBuilder ["flag"; "json"]))
    [fixtures.exported "Table" (reflect.TScalar reflect.unnamed reflect.Map)
       [("json", "-")]]
    0 reflect.flag0 [] (reflect.VStruct [reflect.VOpaque]) ""
  = Ok ([], reflect.VStruct [reflect.VOpaque]).
Proof.
  refine (@excluded_field_skipped fixtures.no_Value fixtures.no_HelpText
            (fixtures.newBuilder ["flag"; "json"])
            (fixtures.exported "Table"
               (reflect.TScalar reflect.unnamed reflect.Map) [("json", "-")])
            [] 0 reflect.flag0 [] (reflect.VStruct [reflect.VOpaque])
            reflect.VOpaque "" ["flag"] "json" [] _ _ _ _).
  - reflexivity.
  - reflexivity.
  - intros k' [<-|[]]. reflexivity.
  - reflexivity.
Defined.






(** X16: every flag [Build] registers on a storage location is bound to
    a location that exists in the record as [Build] leaves it, and the
    default value passed for the flag is what that location holds. *)
Theorem Build_binds_defaults
  (implements : reflect.rtype -> bool)
  (HasHelpText : reflect.rtype -> reflect.value -> option (result string))
  (b : Builder) (o : option (reflect.rtype * reflect.value)) (built : Built)
  (call : pflag.Call) (t : reflect.ref) :
  Build implements HasHelpText b o = Ok built ->
  In call (built_calls built) ->
  pflag.call_target call = Some t ->
  exists v,
    load (built_record built) t = Some v
    /\ forall d, call_default call = Some d -> v = d.
Proof.
  unfold Build. destruct o as [[rt x]|]; [|discriminate].
  destruct rt as [n k|pn elem|n elem|n fields]; try discriminate.
  destruct elem as [n k|n elem|n elem|n fields]; try discriminate.
  cbn [walk].
  match goal with
  | |- context [walk_loop ?h ?b0 ?w ?l ?i ?fl ?p ?rv0 ?pre] =>
      destruct (walk_loop h b0 w l i fl p rv0 pre) as [[calls rv']|] eqn:Hwalk;
        [|discriminate]
  end.
  cbn [bind]. intros H. injection H as <-. cbn [built_record built_calls].
  intros Hin Ht.
  assert (Hall : Forall (bound_in [] rv') calls).
  { eapply walk_loop_bound; [|exact Hwalk].
    apply Forall_forall. intros rf _ fl0 p0 fv c calls0 fv'.
    apply walkField_bound. }
  rewrite Forall_forall in Hall.
  destruct (Hall call Hin t Ht) as [q [v [-> [Hload Hd]]]].
  exists v. auto.
Qed.

Lemma Build_binds_defaults_witness :
  exists v,
    load (reflect.VStruct [reflect.VPtr (Some (reflect.VString ""));
                           reflect.VSlice [reflect.VInt 20; reflect.VInt 30]])
      [reflect.AtField 1] = Some v
    /\ forall d,
        call_default (pflag.IntSliceVarP [reflect.AtField 1] "nums" "n"
                        [20; 30]%Z "-") = Some d -> v = d.
Proof.
  refine (@Build_binds_defaults fixtures.no_Value fixtures.no_HelpText
            (fixtures.newBuilder ["flag"])
            (fixtures.pointer_to
               (fixtures.Options
                  [fixtures.exported "Name" (reflect.PtrTo fixtures.string_type)
                     [("flag", "name")];
                   fixtures.exported "Nums"
                     (reflect.TSlice reflect.unnamed
                        (fixtures.predeclared "int" reflect.Int))
                     [("flag", "nums"); ("short", "n")]])
               (reflect.VStruct [reflect.VPtr None;
                                 reflect.VSlice [reflect.VInt 20; reflect.VInt 30]]))
            {| built_name := "-"; built_mode := pflag.ContinueOnError;
               built_calls := _; built_record := _ |}
            (pflag.IntSliceVarP [reflect.AtField 1] "nums" "n" [20; 30]%Z "-")
            [reflect.AtField 1] _ _ _).
  - reflexivity.
  - right. left. reflexivity.
  - reflexivity.
Defined.
